(** * BedrockScanner: the UDP probe, the status decoder and the scan loop

    A shallow embedding of [Scanner.py] (the two other variants of the
    repository, [scannerV1.py] and [ScannerV2.py], contain the same
    [scan_ports], [check_bedrock_port], [get_server_info] and
    [safe_decode] bodies).

    Python values are modelled as follows:
    - [bytes] objects are lists of [byte];
    - [str] objects are lists of Unicode code points ([Z]);
    - [int] is [Z]; a float that is only truncated or passed on (the
      clock reading packed into a probe, a timeout) is the rational it
      denotes; the floats that are subtracted and printed (the elapsed
      time of a scan) are IEEE-754 binary64 numbers, [float];
    - exceptions are an inductive type and every statement that can raise
      lives in a state-and-exception monad [M];
    - the operating system (sockets, clock, remote peer) is an explicit
      oracle, the record [world]; opening a socket, setting its timeout,
      sending a datagram and releasing the socket are logged. *)

From Stdlib Require Import String Strings.Byte QArith ZArith Lia Bool List
  FinFun Permutation Sorted Floats.SpecFloat.
Import ListNotations.

Local Open Scope Z_scope.

(* ================================================================== *)
(** * Part I: definitions                                              *)
(* ================================================================== *)

(** ** Bytes *)

Definition bytes := list byte.

Definition byte_val (b : byte) : Z := Z.of_N (Byte.to_N b).

Definition byte_of_Z (z : Z) : byte :=
  match Byte.of_N (Z.to_N z) with
  | Some b => b
  | None => x00
  end.

(** [k] bytes of [n], most significant first. *)
Fixpoint big_endian (k : nat) (n : Z) : bytes :=
  match k with
  | O => []
  | S k' =>
      byte_of_Z (Z.land (Z.shiftr n (8 * Z.of_nat k')) 255) :: big_endian k' n
  end.

(** The number a big-endian byte string denotes. *)
Definition be_value (bs : bytes) : Z :=
  fold_left (fun acc b => acc * 256 + byte_val b) bs 0.

(** [range(lo, hi)] *)
Definition py_range (lo hi : Z) : list Z :=
  map (fun i => lo + Z.of_nat i) (seq 0 (Z.to_nat (hi - lo))).

(** [bs.split(sep)] for a one-byte separator: one more field than there
    are separators, empty fields kept. *)
Fixpoint split (sep : byte) (bs : bytes) : list bytes :=
  match bs with
  | [] => [[]]
  | b :: rest =>
      if Byte.eqb b sep then [] :: split sep rest
      else match split sep rest with
           | field :: fields => (b :: field) :: fields
           | [] => [[b]]
           end
  end.

(** ** Text: Python's [utf-8] and [latin-1] codecs *)

(** A [str]: the sequence of its code points. *)
Definition str := list Z.

Definition is_cont (v : Z) : bool := (0x80 <=? v) && (v <=? 0xBF).

(** Range of the second byte of a three-byte sequence: [E0] excludes
    overlong forms, [ED] excludes the surrogates. *)
Definition second3_ok (v0 v1 : Z) : bool :=
  if v0 =? 0xE0 then (0xA0 <=? v1) && (v1 <=? 0xBF)
  else if v0 =? 0xED then (0x80 <=? v1) && (v1 <=? 0x9F)
  else is_cont v1.

(** Range of the second byte of a four-byte sequence: [F0] excludes
    overlong forms, [F4] stops at U+10FFFF. *)
Definition second4_ok (v0 v1 : Z) : bool :=
  if v0 =? 0xF0 then (0x90 <=? v1) && (v1 <=? 0xBF)
  else if v0 =? 0xF4 then (0x80 <=? v1) && (v1 <=? 0x8F)
  else is_cont v1.

(** Strict UTF-8 decoding, [None] where Python raises
    [UnicodeDecodeError]. *)
Fixpoint utf8_decode (bs : bytes) : option str :=
  match bs with
  | [] => Some []
  | b0 :: r0 =>
      let v0 := byte_val b0 in
      if v0 <? 0x80 then option_map (cons v0) (utf8_decode r0)
      else if (0xC2 <=? v0) && (v0 <=? 0xDF) then
        match r0 with
        | b1 :: r1 =>
            let v1 := byte_val b1 in
            if is_cont v1
            then option_map (cons ((v0 - 0xC0) * 64 + (v1 - 0x80)))
                            (utf8_decode r1)
            else None
        | _ => None
        end
      else if (0xE0 <=? v0) && (v0 <=? 0xEF) then
        match r0 with
        | b1 :: b2 :: r2 =>
            let v1 := byte_val b1 in
            let v2 := byte_val b2 in
            if second3_ok v0 v1 && is_cont v2
            then option_map
                   (cons ((v0 - 0xE0) * 4096 + (v1 - 0x80) * 64 + (v2 - 0x80)))
                   (utf8_decode r2)
            else None
        | _ => None
        end
      else if (0xF0 <=? v0) && (v0 <=? 0xF4) then
        match r0 with
        | b1 :: b2 :: b3 :: r3 =>
            let v1 := byte_val b1 in
            let v2 := byte_val b2 in
            let v3 := byte_val b3 in
            if second4_ok v0 v1 && is_cont v2 && is_cont v3
            then option_map
                   (cons ((v0 - 0xF0) * 262144 + (v1 - 0x80) * 4096
                          + (v2 - 0x80) * 64 + (v3 - 0x80)))
                   (utf8_decode r3)
            else None
        | _ => None
        end
      else None
  end.

(** UTF-8 encoding of one code point; [None] for what [str.encode]
    refuses (surrogates, values outside the Unicode range). *)
Definition utf8_encode_cp (c : Z) : option bytes :=
  if c <? 0 then None
  else if c <? 0x80 then Some [byte_of_Z c]
  else if c <? 0x800 then
    Some [byte_of_Z (0xC0 + c / 64); byte_of_Z (0x80 + c mod 64)]
  else if c <? 0x10000 then
    if (0xD800 <=? c) && (c <=? 0xDFFF) then None
    else Some [byte_of_Z (0xE0 + c / 4096);
               byte_of_Z (0x80 + (c / 64) mod 64);
               byte_of_Z (0x80 + c mod 64)]
  else if c <? 0x110000 then
    Some [byte_of_Z (0xF0 + c / 262144);
          byte_of_Z (0x80 + (c / 4096) mod 64);
          byte_of_Z (0x80 + (c / 64) mod 64);
          byte_of_Z (0x80 + c mod 64)]
  else None.

Fixpoint utf8_encode (s : str) : option bytes :=
  match s with
  | [] => Some []
  | c :: s' =>
      match utf8_encode_cp c, utf8_encode s' with
      | Some bs, Some rest => Some (bs ++ rest)
      | _, _ => None
      end
  end.

(** [bs.decode('latin-1', errors='ignore')]: a byte is the code point of
    the same value; a byte the codec cannot map is dropped by the
    [ignore] handler (the codec maps all 256 values). *)
Fixpoint latin1_decode_ignore (bs : bytes) : str :=
  match bs with
  | [] => []
  | b :: rest =>
      let v := byte_val b in
      if (0 <=? v) && (v <? 256)
      then v :: latin1_decode_ignore rest
      else latin1_decode_ignore rest
  end.


(** ** The Python runtime: exceptions, locals, the socket log *)

Inductive exn : Type :=
| OSError                 (* socket.socket, sendto or recv refused by the OS *)
| TimeoutError            (* socket.timeout: nothing arrived in time *)
| ConnectionRefusedError  (* ICMP port unreachable reported on the socket *)
| gaierror                (* the host does not resolve *)
| struct_error            (* struct.pack: value does not fit the format *)
| IndexError
| UnicodeDecodeError
| UnboundLocalError.      (* a local variable read before any assignment *)

Inductive result (A : Type) : Type :=
| Ok (a : A)
| Raise (e : exn).
Arguments Ok {A} a.
Arguments Raise {A} e.

(** A datagram socket object (AF_INET, SOCK_DGRAM). *)
Inductive socket : Type := UdpSocket.

(** What the process does to the network, in program order. *)
Inductive event : Type :=
| EvSocket                                            (* a socket is opened *)
| EvSetTimeout (seconds : Q)
| EvSendto (packet : bytes) (host : string) (port : Z) (* a datagram leaves *)
| EvClose.                                            (* a socket is released *)

Definition event_eq_dec (a b : event) : {a = b} + {a <> b}.
Proof.
  decide equality.
  - decide equality; [apply Pos.eq_dec | apply Z.eq_dec].
  - apply Z.eq_dec.
  - apply string_dec.
  - apply (list_eq_dec Byte.byte_eq_dec).
Defined.

(** The state a statement runs in: the local variable [sock] of the
    running function ([None] while it is unbound) and the socket log of
    the process. *)
Record state : Type := mkState {
  sock : option socket;
  log : list event
}.

Definition M (A : Type) : Type := state -> state * result A.

Definition ret {A} (a : A) : M A := fun s => (s, Ok a).

Definition raise {A} (e : exn) : M A := fun s => (s, Raise e).

Definition bind {A B} (m : M A) (k : A -> M B) : M B :=
  fun s =>
    match m s with
    | (s', Ok a) => k a s'
    | (s', Raise e) => (s', Raise e)
    end.

Notation "x <- m ;; k" := (bind m (fun x => k))
  (at level 61, m at next level, right associativity).
Notation "m ;; k" := (bind m (fun _ => k))
  (at level 61, right associativity).

(** [try: body / except: handler] with a bare [except]: every exception
    is caught; what the body did before raising stays done. *)
Definition try_except {A} (body : M A) (handler : exn -> M A) : M A :=
  fun s =>
    match body s with
    | (s', Ok a) => (s', Ok a)
    | (s', Raise e) => handler e s'
    end.

(** [try: body / finally: cleanup]: the cleanup runs on every exit of the
    body; an exception raised by the cleanup replaces the pending return
    value or exception. *)
Definition try_finally {A} (body : M A) (cleanup : M unit) : M A :=
  fun s =>
    match body s with
    | (s', r) =>
        match cleanup s' with
        | (s'', Ok _) => (s'', r)
        | (s'', Raise e) => (s'', Raise e)
        end
    end.

(** A function call: the callee starts with its own locals unbound, the
    caller's locals are back when it returns or raises. *)
Definition call {A} (body : M A) : M A :=
  fun s =>
    match body (mkState None (log s)) with
    | (s', r) => (mkState (sock s) (log s'), r)
    end.

Definition emit (e : event) : M unit :=
  fun s => (mkState (sock s) (log s ++ [e]), Ok tt).

(** [sock = v] *)
Definition store_sock (v : socket) : M unit :=
  fun s => (mkState (Some v) (log s), Ok tt).

(** Reading the local [sock]. *)
Definition load_sock : M socket :=
  fun s =>
    match sock s with
    | Some v => (s, Ok v)
    | None => (s, Raise UnboundLocalError)
    end.

(** [bs[i]] *)
Definition bytes_getitem (bs : bytes) (i : nat) : M Z :=
  match nth_error bs i with
  | Some b => ret (byte_val b)
  | None => raise IndexError
  end.

(** [l[i]] *)
Definition list_getitem {A} (l : list A) (i : nat) : M A :=
  match nth_error l i with
  | Some a => ret a
  | None => raise IndexError
  end.

(** [int(x)] of a float: truncation towards zero. *)
Definition int_of_float (x : Q) : Z := Z.quot (Qnum x) (Z.pos (Qden x)).

(** Python's [float]: an IEEE-754 binary64 number (53 bits of mantissa,
    exponents up to 1024), with its signed zeros, infinities and NaN. *)
Definition float : Type := spec_float.

(** [x - y]: the exact difference rounded to the nearest double, ties
    to even. *)
Definition float_sub : float -> float -> float := SFsub 53 1024.

(** [x <= y] and [x < y]; false when either side is NaN. *)
Definition float_le : float -> float -> bool := SFleb.

Definition float_lt : float -> float -> bool := SFltb.

(** [0.0] *)
Definition float_zero : float := S754_zero false.

(** The double nearest to [m * 2^e]. *)
Definition float_of_dyadic (m e : Z) : float :=
  binary_normalize 53 1024 m e false.

(** A finite double in its unique representation: what [time.time()]
    returns. *)
Definition is_double (x : float) : bool :=
  match x with
  | S754_zero _ => true
  | S754_finite _ m e => bounded 53 1024 m e
  | S754_infinity _ | S754_nan => false
  end.

(** [struct.pack('>Q', n)]: eight bytes, big-endian; [struct.error]
    outside the unsigned 64-bit range. *)
Definition struct_pack_Q (n : Z) : M bytes :=
  if (0 <=? n) && (n <? 2 ^ 64) then ret (big_endian 8 n)
  else raise struct_error.

(** ** The operating system and the remote peer *)

Inductive recv_outcome : Type :=
| Datagram (payload : bytes)   (* a datagram arrives before the timeout *)
| RecvRaises (e : exn).        (* timeout, ICMP unreachable, ... *)

(** What one probe meets: whether the OS grants a socket, the clock, and
    what sending and receiving do. *)
Record world : Type := mkWorld {
  socket_error : option exn;
  clock : Q;
  sendto_error : option exn;
  incoming : recv_outcome
}.

(** [socket.socket(socket.AF_INET, socket.SOCK_DGRAM)] *)
Definition socket_socket (w : world) : M socket :=
  match socket_error w with
  | Some e => raise e
  | None => emit EvSocket ;; ret UdpSocket
  end.

(** [sk.settimeout(t)] *)
Definition socket_settimeout (sk : socket) (t : Q) : M unit :=
  emit (EvSetTimeout t).

(** [time.time()] *)
Definition time_time (w : world) : M Q := ret (clock w).

(** [sk.sendto(packet, (host, port))] *)
Definition socket_sendto (w : world) (sk : socket) (packet : bytes)
    (host : string) (port : Z) : M unit :=
  match sendto_error w with
  | Some e => raise e
  | None => emit (EvSendto packet host port)
  end.

(** [sk.recv(bufsize)]: at most [bufsize] bytes of the next datagram. *)
Definition socket_recv (w : world) (sk : socket) (bufsize : nat) : M bytes :=
  match incoming w with
  | Datagram payload => ret (firstn bufsize payload)
  | RecvRaises e => raise e
  end.

(** [sk.recvfrom(bufsize)]: the same bytes (the sender's address, which
    the scanner never reads, is left out). *)
Definition socket_recvfrom (w : world) (sk : socket) (bufsize : nat)
  : M bytes := socket_recv w sk bufsize.

(** [sk.close()] *)
Definition socket_close (sk : socket) : M unit := emit EvClose.

(** ** Scanner.py: constants *)

Definition PORT_RANGE : Z * Z := (19130, 19630).
Definition SCAN_TIMEOUT : Q := 3 # 2.
Definition MAX_WORKERS : nat := 100.

(** The 16-byte marker of the unconnected ping. *)
Definition MAGIC : bytes :=
  [x00; xff; xff; x00; xfe; xfe; xfe; xfe;
   xfd; xfd; xfd; xfd; x12; x34; x56; x78].

(** The id byte of an unconnected pong, and the [;] separator. *)
Definition PONG : Z := 0x1c.
Definition SEMICOLON : byte := x3b.

(** ** Scanner.py: [check_bedrock_port] *)

(** The body of the [try] block. [Some v] stands for [return v] executed
    inside the block, [None] for falling off its end. *)
Definition check_bedrock_port_try (w : world) (host : string) (port : Z)
  : M (option (Z * bool)) :=
  sk <- socket_socket w ;;
  store_sock sk ;;
  sk <- load_sock ;;
  socket_settimeout sk SCAN_TIMEOUT ;;
  now <- time_time w ;;
  let timestamp := int_of_float now in
  let magic := MAGIC in
  let packet := [x01] in
  stamp <- struct_pack_Q timestamp ;;
  let packet := packet ++ stamp in
  let packet := packet ++ magic in
  guid <- struct_pack_Q 0 ;;
  let packet := packet ++ guid in
  sk <- load_sock ;;
  socket_sendto w sk packet host port ;;
  sk <- load_sock ;;
  data <- socket_recv w sk 1024 ;;
  if (0 <? length data)%nat then
    first <- bytes_getitem data 0 ;;
    if first =? PONG then ret (Some (port, true)) else ret None
  else ret None.

Definition check_bedrock_port (w : world) (host : string) (port : Z)
  : M (Z * bool) :=
  call (
    returned <-
      try_finally
        (try_except
           (check_bedrock_port_try w host port)
           (fun _ => ret None))                       (* except: pass *)
        (sk <- load_sock ;; socket_close sk) ;;       (* finally: sock.close() *)
    match returned with
    | Some v => ret v
    | None => ret (port, false)
    end).

(** ** Scanner.py: [safe_decode] and [get_server_info] *)

(** [byte_str.decode('utf-8')] *)
Definition bytes_decode_utf8 (byte_str : bytes) : M str :=
  match utf8_decode byte_str with
  | Some s => ret s
  | None => raise UnicodeDecodeError
  end.

(** [byte_str.decode('latin-1', errors='ignore')] *)
Definition bytes_decode_latin1_ignore (byte_str : bytes) : M str :=
  ret (latin1_decode_ignore byte_str).

Definition safe_decode (byte_str : bytes) : M str :=
  call (
    try_except
      (bytes_decode_utf8 byte_str)
      (fun _ => bytes_decode_latin1_ignore byte_str)).

(** The dictionary [get_server_info] builds: its ten keys. *)
Record ServerInfo : Type := mkServerInfo {
  edition : str;
  motd : str;
  protocol : str;
  version : str;
  players : str;
  max_players : str;
  server_id : str;
  server_name : str;
  gamemode : str;
  port : Z
}.

Definition get_server_info_try (w : world) (host : string) (port : Z)
  : M (option ServerInfo) :=
  sk <- socket_socket w ;;
  store_sock sk ;;
  sk <- load_sock ;;
  socket_settimeout sk 2 ;;
  now <- time_time w ;;
  let timestamp := int_of_float now in
  let magic := MAGIC in
  stamp <- struct_pack_Q timestamp ;;
  guid <- struct_pack_Q 0 ;;
  let packet := [x01] ++ stamp ++ magic ++ guid in
  sk <- load_sock ;;
  socket_sendto w sk packet host port ;;
  sk <- load_sock ;;
  data <- socket_recvfrom w sk 2048 ;;
  first <- bytes_getitem data 0 ;;
  if negb (first =? PONG) then ret None
  else
    let server_info := split SEMICOLON (skipn 33 data) in
    if (length server_info <? 10)%nat then ret None
    else
      f0 <- list_getitem server_info 0 ;; v_edition <- safe_decode f0 ;;
      f1 <- list_getitem server_info 1 ;; v_motd <- safe_decode f1 ;;
      f2 <- list_getitem server_info 2 ;; v_protocol <- safe_decode f2 ;;
      f3 <- list_getitem server_info 3 ;; v_version <- safe_decode f3 ;;
      f4 <- list_getitem server_info 4 ;; v_players <- safe_decode f4 ;;
      f5 <- list_getitem server_info 5 ;; v_max_players <- safe_decode f5 ;;
      f6 <- list_getitem server_info 6 ;; v_server_id <- safe_decode f6 ;;
      f7 <- list_getitem server_info 7 ;; v_server_name <- safe_decode f7 ;;
      f8 <- list_getitem server_info 8 ;; v_gamemode <- safe_decode f8 ;;
      ret (Some {| edition := v_edition;
                   motd := v_motd;
                   protocol := v_protocol;
                   version := v_version;
                   players := v_players;
                   max_players := v_max_players;
                   server_id := v_server_id;
                   server_name := v_server_name;
                   gamemode := v_gamemode;
                   port := port |}).

Definition get_server_info (w : world) (host : string) (port : Z)
  : M (option ServerInfo) :=
  call (
    try_finally
      (try_except
         (get_server_info_try w host port)
         (fun _ => ret None))                         (* except: return None *)
      (sk <- load_sock ;; socket_close sk)).          (* finally: sock.close() *)

(** ** Scanner.py: [scan_ports] *)

(** [concurrent.futures.ThreadPoolExecutor(max_workers=n)] *)
Inductive executor : Type := ThreadPoolExecutor (max_workers : nat).

(** A future holds what its call returned or raised. *)
Definition future (A : Type) : Type := result A.

(** [loop.run_in_executor(executor, f, *args)]: the call runs on a worker
    thread of the pool; its outcome, an exception included, is kept in
    the future and reaches the event loop only when the future is
    awaited. *)
Definition run_in_executor {A} (ex : executor) (f : M A) : M (future A) :=
  fun s => match f s with (s', r) => (s', Ok r) end.

(** [await fut] *)
Definition await {A} (fut : future A) : M A :=
  match fut with
  | Ok a => ret a
  | Raise e => raise e
  end.

(** The list comprehension building [futures]: one probe per port. Each
    future is kept with the port it was submitted for, which is how the
    completion order below names it. *)
Fixpoint submit_probes (ex : executor) (net : Z -> world) (host : string)
    (ports : list Z) : M (list (Z * future (Z * bool))) :=
  match ports with
  | [] => ret []
  | port :: rest =>
      fut <- run_in_executor ex (check_bedrock_port (net port) host port) ;;
      futs <- submit_probes ex net host rest ;;
      ret ((port, fut) :: futs)
  end.

Definition future_of {A} (futures : list (Z * future A)) (p : Z)
  : option (future A) :=
  option_map snd (find (fun pf => fst pf =? p) futures).

(** [asyncio.as_completed(futures)]: the futures in the order in which
    they finish. The order is not the program's to choose: [order] lists
    the ports whose probes finish, earliest first. *)
Fixpoint as_completed {A} (order : list Z) (futures : list (Z * future A))
  : list (future A) :=
  match order with
  | [] => []
  | p :: rest =>
      match future_of futures p with
      | Some fut => fut :: as_completed rest futures
      | None => as_completed rest futures
      end
  end.

(** The [for future in ...] loop, [active_ports] being the list built so
    far. *)
Fixpoint collect_active (completed : list (future (Z * bool)))
    (active_ports : list Z) : M (list Z) :=
  match completed with
  | [] => ret active_ports
  | fut :: rest =>
      r <- await fut ;;
      let '(port, is_active) := r in
      if is_active : bool
      then collect_active rest (active_ports ++ [port])
      else collect_active rest active_ports
  end.

(** [scan_ports] for a given value of the module constant [PORT_RANGE]. *)
Definition scan_ports_in (port_range : Z * Z) (net : Z -> world)
    (order : list Z) (host : string) : M (list Z) :=
  call (
    let ports_to_scan := py_range (fst port_range) (snd port_range + 1) in
    let active_ports := [] in
    let ex := ThreadPoolExecutor MAX_WORKERS in
    futures <- submit_probes ex net host ports_to_scan ;;
    collect_active (as_completed order futures) active_ports).

Definition scan_ports : (Z -> world) -> list Z -> string -> M (list Z) :=
  scan_ports_in PORT_RANGE.

(** ** Scanner.py: [scan_server], from the first clock reading to the
    call of [format_results] *)

(** Everything outside the program that one scan depends on. *)
Record environment : Type := mkEnvironment {
  start_clock : float;        (* time.time() before the scan *)
  probe_net : Z -> world;     (* what the probe of each port meets *)
  completion : list Z;        (* the order in which the probes finish *)
  end_clock : float;          (* time.time() after the scan *)
  status_net : Z -> world     (* what the status request to a port meets *)
}.

(** The arguments [format_results] receives. *)
Record ScanResult : Type := mkScanResult {
  sr_host : string;
  sr_active_ports : list Z;
  sr_server_info : option ServerInfo;
  sr_scan_time : float
}.

Definition scan_server_in (port_range : Z * Z) (env : environment)
    (host : string) : M ScanResult :=
  call (
    let start_time := start_clock env in
    active_ports <- scan_ports_in port_range (probe_net env)
                      (completion env) host ;;
    let scan_time := float_sub (end_clock env) start_time in
    let server_info := None in
    server_info <-
      (if negb (length active_ports =? 0)%nat
       then first_port <- list_getitem active_ports 0 ;;
            get_server_info (status_net env first_port) host first_port
       else ret server_info) ;;
    ret {| sr_host := host;
           sr_active_ports := active_ports;
           sr_server_info := server_info;
           sr_scan_time := scan_time |}).

Definition scan_server : environment -> string -> M ScanResult :=
  scan_server_in PORT_RANGE.

(** ** Vocabulary of the statements *)

(** Running a function from a state: the result and the log after it. *)
Definition outcome {A} (m : M A) (s : state) : result A := snd (m s).
Definition log_after {A} (m : M A) (s : state) : list event := log (fst (m s)).

(** A 64-bit timestamp can be packed. *)
Definition clock_fits (w : world) : bool :=
  (0 <=? int_of_float (clock w)) && (int_of_float (clock w) <? 2 ^ 64).

(** The probe gets as far as reading a datagram: the bytes [recv(bufsize)]
    hands to the program. *)
Definition received (w : world) (bufsize : nat) : option bytes :=
  match socket_error w, sendto_error w, incoming w with
  | None, None, Datagram payload =>
      if clock_fits w then Some (firstn bufsize payload) else None
  | _, _, _ => None
  end.

(** The first byte of a reply is the pong id. *)
Definition starts_with_pong (data : bytes) : bool :=
  match data with
  | b :: _ => byte_val b =? PONG
  | [] => false
  end.

(** The port answers the probe with a pong. *)
Definition pong_received (w : world) : bool :=
  match received w 1024 with
  | Some data => starts_with_pong data
  | None => false
  end.

(** The probe packet for a timestamp. *)
Definition probe_packet (timestamp : Z) : bytes :=
  [x01] ++ big_endian 8 timestamp ++ MAGIC ++ big_endian 8 0.

(** The text [safe_decode] produces. *)
Definition decoded_text (byte_str : bytes) : str :=
  match utf8_decode byte_str with
  | Some s => s
  | None => latin1_decode_ignore byte_str
  end.

(** The nine text fields of a record, in payload order. *)
Definition text_fields (i : ServerInfo) : list str :=
  [edition i; motd i; protocol i; version i; players i; max_players i;
   server_id i; server_name i; gamemode i].

(** A text field renders its token verbatim: it is what [safe_decode]
    makes of the token and, when the token is valid UTF-8, it is the
    token's text, which encodes back to the very same bytes. *)
Definition verbatim (txt : str) (token : bytes) : Prop :=
  txt = decoded_text token
  /\ forall v, utf8_decode token = Some v ->
       txt = v /\ utf8_encode txt = Some token.

(** The layout of an unconnected ping carrying [timestamp]: 33 bytes,
    the id [0x01], the timestamp on eight bytes, the sixteen bytes of
    the marker, a zero GUID on eight bytes (both numbers big-endian). *)
Definition well_formed_probe (timestamp : Z) (packet : bytes) : Prop :=
  length packet = 33%nat
  /\ exists stamp guid : bytes,
       packet = [x01] ++ stamp ++ MAGIC ++ guid
       /\ length stamp = 8%nat /\ be_value stamp = timestamp
       /\ length MAGIC = 16%nat
       /\ length guid = 8%nat /\ be_value guid = 0.

(** The socket calls one request leaves in the log. *)
Definition request_events (w : world) (timeout : Q) (host : string)
    (port : Z) : list event :=
  match socket_error w with
  | Some _ => []
  | None =>
      [EvSocket; EvSetTimeout timeout]
      ++ (if clock_fits w then
            match sendto_error w with
            | None => [EvSendto (probe_packet (int_of_float (clock w)))
                         host port]
            | Some _ => []
            end
          else [])
      ++ [EvClose]
  end.

(** The record a status reply decodes to. *)
Definition parse_status (port : Z) (data : bytes) : option ServerInfo :=
  if starts_with_pong data then
    match split SEMICOLON (skipn 33 data) with
    | f0 :: f1 :: f2 :: f3 :: f4 :: f5 :: f6 :: f7 :: f8 :: _ :: _ =>
        Some {| edition := decoded_text f0;
                motd := decoded_text f1;
                protocol := decoded_text f2;
                version := decoded_text f3;
                players := decoded_text f4;
                max_players := decoded_text f5;
                server_id := decoded_text f6;
                server_name := decoded_text f7;
                gamemode := decoded_text f8;
                port := port |}
    | _ => None
    end
  else None.

(** The OS refuses the socket of this request. *)
Definition socket_denied (w : world) : bool :=
  match socket_error w with
  | Some _ => true
  | None => false
  end.

(** What the future of a probe holds. *)
Definition probe_outcome (w : world) (p : Z) : future (Z * bool) :=
  if socket_denied w then Raise UnboundLocalError
  else Ok (p, pong_received w).

(** What the future of the probe of port [p] holds on network [net]. *)
Definition held (net : Z -> world) (p : Z) : future (Z * bool) :=
  probe_outcome (net p) p.

(** What the future of a status request holds. *)
Definition status_outcome (w : world) (p : Z) : result (option ServerInfo) :=
  if socket_denied w then Raise UnboundLocalError
  else Ok (match received w 2048 with
           | Some data => parse_status p data
           | None => None
           end).

Definition mem (ports : list Z) (p : Z) : bool := existsb (Z.eqb p) ports.

(** The ports of the closed interval [PORT_RANGE]. *)
Definition ports_of (port_range : Z * Z) : list Z :=
  py_range (fst port_range) (snd port_range + 1).

(** The socket calls of all the probes of a scan. *)
Definition probe_events (net : Z -> world) (host : string) (ports : list Z)
  : list event :=
  flat_map (fun p => request_events (net p) SCAN_TIMEOUT host p) ports.

(** ** Sample worlds *)

(** The interpreter state a handler starts from. *)
Definition boot : state := mkState None [].

(** [time.time()] on some day of 2024. *)
Definition sample_clock : Q := 171999360025 # 100.

(** The same instant as [time.time()] returns it, and the readings
    [seconds] later: 1719993600.25 is [6879974401 * 2^-2]. *)
Definition sample_time (seconds : Z) : float :=
  float_of_dyadic (6879974401 + 4 * seconds) (-2).

(** ASCII text as a [str]. *)
Definition text (s : string) : str := map byte_val (list_byte_of_string s).

(** Nothing answers: [recv] times out. *)
Definition silent_world : world :=
  mkWorld None sample_clock None (RecvRaises TimeoutError).

(** The process is out of file descriptors: [socket.socket] raises. *)
Definition exhausted_world : world :=
  mkWorld (Some OSError) sample_clock None (RecvRaises TimeoutError).

(** A pong: the id byte, 32 header bytes, the status line. *)
Definition status_line : string :=
  "MCPE;My Server;422;1.19;3;10;GUID1;Survival World;Survival;1;19132;19132;0;".

Definition pong_reply : bytes :=
  x1c :: repeat x00 32 ++ list_byte_of_string status_line.

Definition pong_world : world :=
  mkWorld None sample_clock None (Datagram pong_reply).

(** A pong whose status line has exactly ten fields. *)
Definition ten_field_reply : bytes :=
  x1c :: repeat x00 32
  ++ list_byte_of_string "MCPE;My Server;422;1.19;3;10;GUID1;Survival World;Survival;1".

Definition ten_field_world : world :=
  mkWorld None sample_clock None (Datagram ten_field_reply).

(** A server name that is not UTF-8: [0xFF] and a lone continuation
    byte around an ASCII letter. *)
Definition garbled_name : bytes := [xff; x41; x80].

(** ** Sample networks *)

(** Only port 19131 runs a server. *)
Definition lone_server_net (p : Z) : world :=
  if p =? 19131 then pong_world else silent_world.

(** Ports 19130 and 19131 both run a server. *)
Definition two_servers_net (p : Z) : world :=
  if (p =? 19130) || (p =? 19131) then pong_world else silent_world.

(** No port answers. *)
Definition silent_net (p : Z) : world := silent_world.

(** The two servers, the probes finishing from the highest port down. *)
Definition descending_env : environment :=
  mkEnvironment (sample_time 0) two_servers_net (rev (ports_of PORT_RANGE))
    (sample_time 8) (fun _ => pong_world).


(** A silent host; a status request, were one made, would find the
    process out of descriptors. *)
Definition silent_env : environment :=
  mkEnvironment (sample_time 0) silent_net (rev (ports_of PORT_RANGE))
    (sample_time 9) (fun _ => exhausted_world).

(** The scenario of three ports of which the middle one answers. *)
Definition lone_server_env : environment :=
  mkEnvironment (sample_time 0) lone_server_net [19132; 19131; 19130]
    (sample_time 2) lone_server_net.

(* ================================================================== *)
(** * Further vocabulary                                               *)
(* ================================================================== *)

(** [sep.join(parts)] *)
Fixpoint join {A} (sep : list A) (parts : list (list A)) : list A :=
  match parts with
  | [] => []
  | [part] => part
  | part :: rest => part ++ sep ++ join sep rest
  end.

(** The event is a datagram leaving for port [q]. *)
Definition is_sendto_port (q : Z) (ev : event) : bool :=
  match ev with
  | EvSendto _ _ q' => q' =? q
  | _ => false
  end.

(** The event opens a socket. *)
Definition is_socket (ev : event) : bool :=
  match ev with
  | EvSocket => true
  | _ => false
  end.

(** The life of one socket in a log: opened first, released last, and
    neither opened nor released in between. *)
Definition socket_bracket (evs : list event) : Prop :=
  exists mid, evs = EvSocket :: mid ++ [EvClose]
              /\ ~ In EvSocket mid /\ ~ In EvClose mid.

(* ================================================================== *)
(** * The rest of the bot: texts                                       *)
(* ================================================================== *)

(** A string literal of the source as a [str]: the source files are
    UTF-8, so is this one. *)
Definition lit (s : string) : str := decoded_text (list_byte_of_string s).

(** The line feed, written [\n] in the source. *)
Definition nl : str := [10].

Fixpoint str_of_uint (d : Decimal.uint) : str :=
  match d with
  | Decimal.Nil => []
  | Decimal.D0 d' => 48 :: str_of_uint d'
  | Decimal.D1 d' => 49 :: str_of_uint d'
  | Decimal.D2 d' => 50 :: str_of_uint d'
  | Decimal.D3 d' => 51 :: str_of_uint d'
  | Decimal.D4 d' => 52 :: str_of_uint d'
  | Decimal.D5 d' => 53 :: str_of_uint d'
  | Decimal.D6 d' => 54 :: str_of_uint d'
  | Decimal.D7 d' => 55 :: str_of_uint d'
  | Decimal.D8 d' => 56 :: str_of_uint d'
  | Decimal.D9 d' => 57 :: str_of_uint d'
  end.

(** [str(n)] of an [int], which is also how an f-string renders it. *)
Definition str_of_int (n : Z) : str :=
  match Z.to_int n with
  | Decimal.Pos d => str_of_uint d
  | Decimal.Neg d => 45 :: str_of_uint d
  end.

(** A number below 100 on two digits. *)
Definition pad2 (n : Z) : str :=
  if n <? 10 then 48 :: str_of_int n else str_of_int n.

(** [n/d] rounded to the nearest integer, ties to the even one
    ([0 <= n], [0 < d]). *)
Definition round_half_even (n d : Z) : Z :=
  let q := n / d in
  let r := n mod d in
  if 2 * r <? d then q
  else if d <? 2 * r then q + 1
  else if Z.even q then q else q + 1.

(** [n/d] ([0 <= n], [0 < d]) with two decimals: the decimal nearest to
    the exact value, ties to even. *)
Definition two_decimals (n d : Z) : str :=
  let hundredths := round_half_even (n * 100) d in
  str_of_int (hundredths / 100) ++ [46] ++ pad2 (hundredths mod 100).

(** The [-] of a negative number. *)
Definition minus_sign (negative : bool) : str :=
  if negative then [45] else [].

(** [f"{x:.2f}"]: the exact value of the double rounded to two
    decimals, with its sign (also that of a negative zero); [inf],
    [-inf] and [nan] for the values that are no numbers. *)
Definition format_2f (x : float) : str :=
  match x with
  | S754_nan => lit "nan"
  | S754_infinity s => minus_sign s ++ lit "inf"
  | S754_zero s => minus_sign s ++ two_decimals 0 1
  | S754_finite s m e =>
      minus_sign s
      ++ (if 0 <=? e then two_decimals (Z.pos m * 2 ^ e) 1
          else two_decimals (Z.pos m) (2 ^ (- e)))
  end.

(** The fields of a [datetime] that the bot prints. *)
Record datetime : Type := mkDatetime {
  dt_year : Z;      (* 1000 .. 9999 *)
  dt_month : Z;     (* 1 .. 12 *)
  dt_day : Z;       (* 1 .. 31 *)
  dt_hour : Z;      (* 0 .. 23 *)
  dt_minute : Z     (* 0 .. 59 *)
}.

(** [d.strftime("%d.%m.%Y %H:%M")] *)
Definition strftime_dmY_HM (d : datetime) : str :=
  pad2 (dt_day d) ++ [46] ++ pad2 (dt_month d) ++ [46]
  ++ str_of_int (dt_year d) ++ [32]
  ++ pad2 (dt_hour d) ++ [58] ++ pad2 (dt_minute d).

(** [s.replace(old, new)] where [old] is one character. *)
Fixpoint str_replace_char (old : Z) (new : str) (s : str) : str :=
  match s with
  | [] => []
  | c :: rest =>
      if c =? old then new ++ str_replace_char old new rest
      else c :: str_replace_char old new rest
  end.

(** [c.isspace()], the characters [strip()] removes. *)
Definition is_space (c : Z) : bool :=
  ((0x09 <=? c) && (c <=? 0x0D)) || ((0x1C <=? c) && (c <=? 0x20))
  || (c =? 0x85) || (c =? 0xA0) || (c =? 0x1680)
  || ((0x2000 <=? c) && (c <=? 0x200A))
  || (c =? 0x2028) || (c =? 0x2029) || (c =? 0x202F) || (c =? 0x205F)
  || (c =? 0x3000).

(** [s.lstrip()] *)
Fixpoint str_lstrip (s : str) : str :=
  match s with
  | [] => []
  | c :: rest => if is_space c then str_lstrip rest else s
  end.

(** [s.strip()] *)
Definition str_strip (s : str) : str :=
  rev (str_lstrip (rev (str_lstrip s))).

(** The number of occurrences of a character. *)
Definition count_char (c : Z) (s : str) : nat := count_occ Z.eq_dec s c.

(** ** Scanner.py: [format_results] *)

(** [now] is what [datetime.now()] returns when the function runs. A
    [server_info] that is a dictionary is never empty, so [if
    server_info] tells [None] from a record. *)
Definition format_results (now : datetime) (host : str)
    (active_ports : list Z) (server_info : option ServerInfo)
    (scan_time : float)
  : str :=
  let timestamp := strftime_dmY_HM now in
  let port_count := snd PORT_RANGE - fst PORT_RANGE + 1 in
  if (length active_ports =? 0)%nat then
    lit "<b>[" ++ timestamp ++ lit "] ❌ Результаты сканирования " ++ host
    ++ lit "</b>" ++ nl ++ nl ++ lit "🔢 Проверено портов: <code>"
    ++ str_of_int port_count ++ lit "</code>" ++ nl
    ++ lit "📂 Активные порты: <b>не найдено</b>" ++ nl ++ nl
    ++ lit "⏱ Время сканирования: " ++ format_2f scan_time ++ lit " сек"
  else
    let ports_str :=
      join (lit ", ") (map str_of_int (firstn 10 active_ports)) in
    let ports_str :=
      if (10 <? length active_ports)%nat
      then ports_str
           ++ (lit " (+" ++ str_of_int (Z.of_nat (length active_ports) - 10)
               ++ lit " других)")
      else ports_str in
    let result :=
      [ lit "<b>[" ++ timestamp ++ lit "] ✅ Результаты сканирования "
        ++ host ++ lit "</b>" ++ nl ++ nl;
        lit "🔢 Проверено портов: <code>" ++ str_of_int port_count
        ++ lit "</code>";
        lit "📂 Активные порты: <b>" ++ ports_str ++ lit "</b>" ] in
    let result :=
      match server_info with
      | Some info =>
          result
          ++ [ lit "🏷️ Название: <b>" ++ server_name info ++ lit "</b>";
               lit "🛠️ Версия: <b>" ++ version info ++ lit "</b>";
               lit "👥 Игроки: <b>" ++ players info ++ lit "/"
               ++ max_players info ++ lit "</b>";
               lit "🎮 Режим: <b>" ++ gamemode info ++ lit "</b>";
               lit "📝 MOTD: <i>" ++ motd info ++ lit "</i>";
               lit "🚪 Основной порт: <b>" ++ str_of_int (port info)
               ++ lit "</b>" ]
      | None => result
      end in
    let result :=
      result
      ++ [ nl ++ lit "⏱ Время сканирования: " ++ format_2f scan_time
           ++ lit " сек" ] in
    join nl result.

(** ** The Telegram side *)

(** What can leave a handler: an exception of the scanner, the idna
    codec refusing a name inside [getaddrinfo], a failed Bot API call. *)
Inductive error : Type :=
| PythonError (e : exn)
| UnicodeError
| TelegramError.

Inductive answer (A : Type) : Type :=
| Returned (a : A)
| Raised (e : error).
Arguments Returned {A} a.
Arguments Raised {A} e.

Inductive parse_mode : Type := PlainText | HTML.

(** The [Message] a Bot API call returns. *)
Record Message : Type := mkMessage {
  chat_id : Z;
  message_id : Z
}.

(** What a handler asks of the outside, in program order. *)
Inductive bot_call : Type :=
| GetAddrInfo (host : str)
| ReplyText (text : str) (mode : parse_mode)
| EditMessageText (chat : Z) (message : Z) (text : str) (mode : parse_mode)
| LoggerInfo (text : str).

(** A handler runs on the scanner's state and on the list of its calls. *)
Record bot_state : Type := mkBot {
  machine : state;
  calls : list bot_call
}.

Definition B (A : Type) : Type := bot_state -> bot_state * answer A.

Definition retB {A} (a : A) : B A := fun b => (b, Returned a).

Definition raiseB {A} (e : error) : B A := fun b => (b, Raised e).

Definition bindB {A C} (m : B A) (k : A -> B C) : B C :=
  fun b =>
    match m b with
    | (b', Returned a) => k a b'
    | (b', Raised e) => (b', Raised e)
    end.

Declare Scope bot_scope.
Delimit Scope bot_scope with bot.
Notation "x <- m ;; k" := (bindB m (fun x => k))
  (at level 61, m at next level, right associativity) : bot_scope.
Notation "m ;; k" := (bindB m (fun _ => k))
  (at level 61, right associativity) : bot_scope.

(** A call into the scanner. *)
Definition lift {A} (m : M A) : B A :=
  fun b =>
    match m (machine b) with
    | (s', Ok a) => (mkBot s' (calls b), Returned a)
    | (s', Raise e) => (mkBot s' (calls b), Raised (PythonError e))
    end.

Definition record_call (c : bot_call) : B unit :=
  fun b => (mkBot (machine b) (calls b ++ [c]), Returned tt).

(** [try: body / except socket.gaierror: handler] *)
Definition try_except_gaierror {A} (body : B A) (handler : B A) : B A :=
  fun b =>
    match body b with
    | (b', Raised (PythonError gaierror)) => handler b'
    | (b', r) => (b', r)
    end.

(** Everything outside the program that one update depends on: how
    resolving a name fails, what the two Bot API calls meet, the local
    time, and the environment of the scan. *)
Record service : Type := mkService {
  getaddrinfo_error : str -> option error;
  reply_outcome : answer Message;
  edit_error : option error;
  datetime_now : datetime;
  scan_env : environment
}.

(** The parts of an [Update] and of a [CallbackContext] the handlers
    read. *)
Record Update : Type := mkUpdate {
  message_text : str;          (* update.message.text *)
  effective_chat_id : Z;       (* update.effective_chat.id *)
  mention_html : str           (* update.effective_user.mention_html() *)
}.

Record CallbackContext : Type := mkContext {
  args : list str              (* context.args *)
}.

(** [socket.getaddrinfo(host, None)] *)
Definition socket_getaddrinfo (sv : service) (host : str) : B unit :=
  (record_call (GetAddrInfo host) ;;
   match getaddrinfo_error sv host with
   | Some e => raiseB e
   | None => retB tt
   end)%bot.

(** [await update.message.reply_text(text, parse_mode=mode)];
    [reply_html(text)] is the same call with the HTML mode. *)
Definition reply_text (sv : service) (text : str) (mode : parse_mode)
  : B Message :=
  (record_call (ReplyText text mode) ;;
   match reply_outcome sv with
   | Returned message => retB message
   | Raised e => raiseB e
   end)%bot.

(** [await context.bot.edit_message_text(chat_id=.., message_id=..,
    text=.., parse_mode=..)] *)
Definition edit_message_text (sv : service) (chat message : Z) (text : str)
    (mode : parse_mode) : B unit :=
  (record_call (EditMessageText chat message text mode) ;;
   match edit_error sv with
   | Some e => raiseB e
   | None => retB tt
   end)%bot.

(** [logger.info(text)] *)
Definition logger_info (text : str) : B unit := record_call (LoggerInfo text).

(** The name under which the socket log of the scanner knows a host:
    the UTF-8 bytes of the [str]. *)
Definition host_name (host : str) : string :=
  string_of_list_byte
    match utf8_encode host with
    | Some bs => bs
    | None => []
    end.

(** ** Scanner.py: [is_valid_host] and the whole of [scan_server] *)

Definition is_valid_host (sv : service) (host : str) : B bool :=
  try_except_gaierror
    (socket_getaddrinfo sv host ;; retB true)%bot
    (retB false).

(** The handler of a text message. Lines 63 to 70 are [scan_server_in]. *)
Definition scan_server_handler (sv : service) (update : Update)
    (context : CallbackContext) : B unit :=
  (let host := str_strip (message_text update) in
   valid <- is_valid_host sv host ;;
   if negb valid then
     _ <- reply_text sv (lit "❌ Неверный формат IP/домена!") PlainText ;;
     retB tt
   else
     message <-
       reply_text sv
         (lit "🔎 Сканирование активных портов сервера: " ++ host ++ nl
          ++ lit "Проверяю "
          ++ str_of_int (snd PORT_RANGE - fst PORT_RANGE + 1)
          ++ lit " портов..." ++ nl ++ lit "⏳ Пожалуйста, подождите...")
         PlainText ;;
     r <- lift (scan_server_in PORT_RANGE (scan_env sv) (host_name host)) ;;
     let result :=
       format_results (datetime_now sv) host (sr_active_ports r)
         (sr_server_info r) (sr_scan_time r) in
     edit_message_text sv (chat_id message) (message_id message) result
       HTML)%bot.

(** ** scannerV1.py: [escape_html], [format_results] and [search] *)

Module V1.

Definition escape_html (text : str) : str :=
  if (length text =? 0)%nat then lit ""
  else
    str_replace_char 62 (lit "&gt;")
      (str_replace_char 60 (lit "&lt;")
         (str_replace_char 38 (lit "&amp;") text)).

Definition format_results (now : datetime) (host : str)
    (active_ports : list Z) (server_info : option ServerInfo)
    (scan_time : float)
  : str :=
  let timestamp := strftime_dmY_HM now in
  let port_count := snd PORT_RANGE - fst PORT_RANGE + 1 in
  let safe_host := escape_html host in
  if (length active_ports =? 0)%nat then
    lit "<b>[" ++ timestamp ++ lit "] ❌ Результаты сканирования "
    ++ safe_host ++ lit "</b>" ++ nl ++ nl
    ++ lit "🔢 Проверено портов: <code>" ++ str_of_int port_count
    ++ lit "</code>" ++ nl ++ lit "📂 Активные порты: <b>не найдено</b>"
    ++ nl ++ nl ++ lit "⏱ Время сканирования: " ++ format_2f scan_time
    ++ lit " сек"
  else
    let ports_str :=
      join (lit ", ") (map str_of_int (firstn 10 active_ports)) in
    let ports_str :=
      if (10 <? length active_ports)%nat
      then ports_str
           ++ (lit " (+" ++ str_of_int (Z.of_nat (length active_ports) - 10)
               ++ lit " других)")
      else ports_str in
    let result :=
      [ lit "<b>[" ++ timestamp ++ lit "] ✅ Результаты сканирования "
        ++ safe_host ++ lit "</b>" ++ nl ++ nl;
        lit "🔢 Проверено портов: <code>" ++ str_of_int port_count
        ++ lit "</code>";
        lit "📂 Активные порты: <b>" ++ ports_str ++ lit "</b>" ] in
    let result :=
      match server_info with
      | Some info =>
          let safe_server_name := escape_html (server_name info) in
          let safe_version := escape_html (version info) in
          let safe_players := escape_html (players info) in
          let safe_max_players := escape_html (max_players info) in
          let safe_gamemode := escape_html (gamemode info) in
          let safe_motd := escape_html (motd info) in
          result
          ++ [ lit "🏷️ Название: <b>" ++ safe_server_name ++ lit "</b>";
               lit "🛠️ Версия: <b>" ++ safe_version ++ lit "</b>";
               lit "👥 Игроки: <b>" ++ safe_players ++ lit "/"
               ++ safe_max_players ++ lit "</b>";
               lit "🎮 Режим: <b>" ++ safe_gamemode ++ lit "</b>";
               lit "📝 MOTD: <i>" ++ safe_motd ++ lit "</i>";
               lit "🚪 Основной порт: <b>" ++ str_of_int (port info)
               ++ lit "</b>" ]
      | None => result
      end in
    let result :=
      result
      ++ [ nl ++ lit "⏱ Время сканирования: " ++ format_2f scan_time
           ++ lit " сек" ] in
    join nl result.

Definition search (sv : service) (update : Update)
    (context : CallbackContext) : B unit :=
  (if (length (args context) =? 0)%nat then
     _ <- reply_text sv
            (lit "❌ Укажите IP или домен после команды!" ++ nl
             ++ lit "Пример: /search example.com")
            PlainText ;;
     retB tt
   else
     let host := str_strip (join (lit " ") (args context)) in
     valid <- is_valid_host sv host ;;
     if negb valid then
       _ <- reply_text sv (lit "❌ Неверный формат IP/домена!") PlainText ;;
       retB tt
     else
       message <-
         reply_text sv
           (lit "🔎 Сканирование активных портов сервера: "
            ++ escape_html host ++ nl ++ lit "Проверяю "
            ++ str_of_int (snd PORT_RANGE - fst PORT_RANGE + 1)
            ++ lit " портов..." ++ nl ++ lit "⏳ Пожалуйста, подождите...")
           PlainText ;;
       r <- lift (scan_server_in PORT_RANGE (scan_env sv) (host_name host)) ;;
       let result :=
         format_results (datetime_now sv) host (sr_active_ports r)
           (sr_server_info r) (sr_scan_time r) in
       edit_message_text sv (chat_id message) (message_id message) result
         HTML)%bot.

End V1.

(** ** ScannerV2.py: access check and handlers *)

Module V2.

Definition BLOCKED_GROUP_ID : Z := -1002694724583.

Definition check_access (update : Update) (context : CallbackContext)
  : B bool :=
  (let chat := effective_chat_id update in
   if chat =? BLOCKED_GROUP_ID then
     logger_info (lit "Блокировка запроса из группы: "
                  ++ str_of_int BLOCKED_GROUP_ID) ;;
     retB false
   else retB true)%bot.

Definition start (sv : service) (update : Update)
    (context : CallbackContext) : B unit :=
  (allowed <- check_access update context ;;
   if negb allowed then retB tt
   else
     _ <- reply_text sv
            (lit "Привет " ++ mention_html update ++ lit "! 👋" ++ nl
             ++ lit "Я - сканер Minecraft Bedrock серверов." ++ nl ++ nl
             ++ lit "🔍 <b>Доступные команды:</b>" ++ nl
             ++ lit "/start - показать это сообщение" ++ nl
             ++ lit "/scan <code>IP</code> - сканировать сервер" ++ nl ++ nl
             ++ lit "📋 <b>Примеры использования:</b>" ++ nl
             ++ lit "<code>/scan breadix.ru</code>" ++ nl
             ++ lit "<code>/scan mc.example.com</code>" ++ nl
             ++ lit "<code>/scan 192.168.1.1</code>")
            HTML ;;
     retB tt)%bot.

Definition process_scan_request (sv : service) (update : Update)
    (context : CallbackContext) (host : str) : B unit :=
  (message <-
     reply_text sv
       (lit "🔎 Сканирование активных портов сервера: <code>" ++ host
        ++ lit "</code>" ++ nl ++ lit "🔢 Проверяю "
        ++ str_of_int (snd PORT_RANGE - fst PORT_RANGE + 1)
        ++ lit " портов..." ++ nl ++ lit "⏳ Пожалуйста, подождите...")
       HTML ;;
   r <- lift (scan_server_in PORT_RANGE (scan_env sv) (host_name host)) ;;
   let result :=
     format_results (datetime_now sv) host (sr_active_ports r)
       (sr_server_info r) (sr_scan_time r) in
   edit_message_text sv (chat_id message) (message_id message) result
     HTML)%bot.

Definition scan_command (sv : service) (update : Update)
    (context : CallbackContext) : B unit :=
  (allowed <- check_access update context ;;
   if negb allowed then retB tt
   else if (length (args context) =? 0)%nat then
     _ <- reply_text sv
            (lit "❌ <b>Использование:</b> <code>/scan IP_адрес</code>" ++ nl
             ++ nl ++ lit "📋 <b>Примеры:</b>" ++ nl
             ++ lit "<code>/scan breadix.ru</code>" ++ nl
             ++ lit "<code>/scan 192.168.1.1</code>")
            HTML ;;
     retB tt
   else
     let host := str_strip (join (lit " ") (args context)) in
     valid <- is_valid_host sv host ;;
     if negb valid then
       _ <- reply_text sv (lit "❌ Неверный формат IP/домена!") PlainText ;;
       retB tt
     else process_scan_request sv update context host)%bot.

Definition ignore_all_messages (update : Update) (context : CallbackContext)
  : B unit :=
  (allowed <- check_access update context ;;
   if negb allowed then retB tt else retB tt)%bot.

End V2.

(** ** Vocabulary of the handlers *)

(** What [escape_html] makes of one character. *)
Definition escape_char (c : Z) : str :=
  if c =? 38 then lit "&amp;"
  else if c =? 60 then lit "&lt;"
  else if c =? 62 then lit "&gt;"
  else [c].

(** Reading escaped text back: the three entities become their
    character again, everything else stays. *)
Fixpoint unescape_html (s : str) : str :=
  match s with
  | 38 :: 97 :: 109 :: 112 :: 59 :: rest => 38 :: unescape_html rest
  | 38 :: 108 :: 116 :: 59 :: rest => 60 :: unescape_html rest
  | 38 :: 103 :: 116 :: 59 :: rest => 62 :: unescape_html rest
  | c :: rest => c :: unescape_html rest
  | [] => []
  end.

(** The text holds none of the three characters HTML gives a meaning. *)
Definition plain_text (s : str) : Prop :=
  ~ In 38 s /\ ~ In 60 s /\ ~ In 62 s.

(** A handler starts with nothing asked yet. *)
Definition idle : bot_state := mkBot boot [].

Definition is_reply (c : bot_call) : bool :=
  match c with
  | ReplyText _ _ => true
  | _ => false
  end.

Definition is_edit (c : bot_call) : bool :=
  match c with
  | EditMessageText _ _ _ _ => true
  | _ => false
  end.

(** The progress message of Scanner.py for a host. *)
Definition progress_text (host : str) : str :=
  lit "🔎 Сканирование активных портов сервера: " ++ host ++ nl
  ++ lit "Проверяю " ++ str_of_int (snd PORT_RANGE - fst PORT_RANGE + 1)
  ++ lit " портов..." ++ nl ++ lit "⏳ Пожалуйста, подождите...".

(** The "not a valid host" message, the same in the three files. *)
Definition invalid_host_text : str := lit "❌ Неверный формат IP/домена!".

(** The fields of a record that [format_results] prints as text. *)
Definition shown_fields (i : ServerInfo) : list str :=
  [server_name i; version i; players i; max_players i; gamemode i; motd i].

(** The number of [<] (and of [>]) that the template of
    [format_results] itself writes. *)
Definition template_marks (active_ports : list Z)
    (server_info : option ServerInfo) : nat :=
  if (length active_ports =? 0)%nat then 6
  else match server_info with
       | Some _ => 18
       | None => 6
       end.

(** The number of occurrences of a character in the texts a server
    sent. *)
Definition count_in_fields (c : Z) (active_ports : list Z)
    (server_info : option ServerInfo) : nat :=
  if (length active_ports =? 0)%nat then 0
  else match server_info with
       | Some info => list_sum (map (count_char c) (shown_fields info))
       | None => 0
       end.

(** ** Sample updates *)

Definition sample_now : datetime := mkDatetime 2024 7 3 9 5.

Definition sample_message : Message := mkMessage 77 1001.

(** A private chat asking for [mc.example.com], with blanks around. *)
Definition sample_update : Update :=
  mkUpdate (lit "  mc.example.com ") 77 (lit "Ann").

(** The same request from the blocked group. *)
Definition blocked_update : Update :=
  mkUpdate (lit "/scan mc.example.com") V2.BLOCKED_GROUP_ID (lit "Ann").

Definition sample_context : CallbackContext :=
  mkContext [lit "mc.example.com"].

(** No name resolves. *)
Definition nowhere_service : service :=
  mkService (fun _ => Some (PythonError gaierror)) (Returned sample_message)
    None sample_now silent_env.

(** Names resolve and only port 19131 of the host answers. *)
Definition lone_service : service :=
  mkService (fun _ => None) (Returned sample_message) None sample_now
    (mkEnvironment (sample_time 0) lone_server_net (ports_of PORT_RANGE)
       (sample_time 2) lone_server_net).

(** Names resolve but the process runs out of descriptors at the probe
    of port 19500. *)
Definition starved_service : service :=
  mkService (fun _ => None) (Returned sample_message) None sample_now
    (mkEnvironment (sample_time 0)
       (fun p => if p =? 19500 then exhausted_world else lone_server_net p)
       (ports_of PORT_RANGE) (sample_time 2) lone_server_net).

(** A record with the six texts that are shown escaped. *)
Definition escape_shown (i : ServerInfo) : ServerInfo :=
  {| edition := edition i;
     motd := V1.escape_html (motd i);
     protocol := protocol i;
     version := V1.escape_html (version i);
     players := V1.escape_html (players i);
     max_players := V1.escape_html (max_players i);
     server_id := server_id i;
     server_name := V1.escape_html (server_name i);
     gamemode := V1.escape_html (gamemode i);
     port := port i |}.

(** A server that answers every request with the bare pong id. *)
Definition bare_pong_world : world :=
  mkWorld None sample_clock None (Datagram [x1c]).

(** A silent host, scanned while the wall clock is set back: the second
    reading of [time.time()] is three seconds below the first. *)
Definition stepped_back_env : environment :=
  mkEnvironment (sample_time 0) silent_net (ports_of PORT_RANGE)
    (sample_time (-3)) silent_net.

(** A silent host, scanned by a process that runs out of descriptors
    at the probe of port 19500. *)
Definition starved_silent_env : environment :=
  mkEnvironment (sample_time 0)
    (fun p => if p =? 19500 then exhausted_world else silent_world)
    (ports_of PORT_RANGE) (sample_time 9) silent_net.
(* ================================================================== *)
(** * Part II: theorems                                                *)
(* ================================================================== *)

Lemma byte_val_range (b : byte) : 0 <= byte_val b < 256.
Proof.
  unfold byte_val. pose proof (Byte.to_N_bounded b). lia.
Qed.

Lemma byte_of_Z_val (b : byte) : byte_of_Z (byte_val b) = b.
Proof.
  unfold byte_of_Z, byte_val. rewrite N2Z.id, Byte.of_to_N. reflexivity.
Qed.

Lemma byte_val_of_Z (z : Z) : 0 <= z < 256 -> byte_val (byte_of_Z z) = z.
Proof.
  intros Hz. unfold byte_of_Z, byte_val.
  destruct (Byte.of_N (Z.to_N z)) as [b|] eqn:E.
  - apply Byte.to_of_N in E. rewrite E. lia.
  - exfalso. assert (Hlt : (Z.to_N z < 256)%N) by lia.
    pose proof (Byte.of_N_None_iff (Z.to_N z)) as Hn.
    apply Hn in E. lia.
Qed.

(** ** The UTF-8 codec *)

Ltac bool_to_Z :=
  repeat match goal with
  | H : (_ && _)%bool = true |- _ => apply andb_prop in H; destruct H
  | H : (_ <=? _) = true |- _ => apply Z.leb_le in H
  | H : (_ <=? _) = false |- _ => apply Z.leb_gt in H
  | H : (_ <? _) = true |- _ => apply Z.ltb_lt in H
  | H : (_ <? _) = false |- _ => apply Z.ltb_ge in H
  | H : (_ =? _) = true |- _ => apply Z.eqb_eq in H
  | H : (_ =? _) = false |- _ => apply Z.eqb_neq in H
  end.

Ltac decide_ltb :=
  repeat match goal with
  | |- context [?a <? ?b] =>
      first [ replace (a <? b) with true by (symmetry; apply Z.ltb_lt; lia)
            | replace (a <? b) with false by (symmetry; apply Z.ltb_ge; lia) ]
  | |- context [?a <=? ?b] =>
      first [ replace (a <=? b) with true by (symmetry; apply Z.leb_le; lia)
            | replace (a <=? b) with false by (symmetry; apply Z.leb_gt; lia) ]
  end.

Lemma encode_cp_1 v : 0 <= v < 0x80 -> utf8_encode_cp v = Some [byte_of_Z v].
Proof. intros H. unfold utf8_encode_cp. decide_ltb. reflexivity. Qed.

Lemma encode_cp_2 v0 v1 :
  0xC2 <= v0 <= 0xDF -> is_cont v1 = true ->
  utf8_encode_cp ((v0 - 0xC0) * 64 + (v1 - 0x80))
  = Some [byte_of_Z v0; byte_of_Z v1].
Proof.
  intros H0 H1. unfold is_cont in H1. bool_to_Z.
  unfold utf8_encode_cp.
  set (c := (v0 - 0xC0) * 64 + (v1 - 0x80)).
  assert (Hc : 0x80 <= c < 0x800) by (subst c; lia).
  decide_ltb.
  replace (0xC0 + c / 64) with v0
    by (subst c; Z.div_mod_to_equations; lia).
  replace (0x80 + c mod 64) with v1
    by (subst c; Z.div_mod_to_equations; lia).
  reflexivity.
Qed.

Lemma encode_cp_3 v0 v1 v2 :
  0xE0 <= v0 <= 0xEF -> second3_ok v0 v1 = true -> is_cont v2 = true ->
  utf8_encode_cp ((v0 - 0xE0) * 4096 + (v1 - 0x80) * 64 + (v2 - 0x80))
  = Some [byte_of_Z v0; byte_of_Z v1; byte_of_Z v2].
Proof.
  intros H0 H1 H2. unfold is_cont in H2. bool_to_Z.
  set (c := (v0 - 0xE0) * 4096 + (v1 - 0x80) * 64 + (v2 - 0x80)).
  assert (Hv1 : 0x80 <= v1 <= 0xBF /\ 0x800 <= c < 0x10000
                /\ (c < 0xD800 \/ 0xDFFF < c)).
  { unfold second3_ok, is_cont in H1.
    destruct (v0 =? 0xE0) eqn:E0; [|destruct (v0 =? 0xED) eqn:ED];
      bool_to_Z; subst c; lia. }
  destruct Hv1 as (Hv1 & Hc & Hs).
  unfold utf8_encode_cp. decide_ltb.
  replace ((0xD800 <=? c) && (c <=? 0xDFFF))%bool with false
    by (symmetry; apply andb_false_iff; rewrite Z.leb_gt, Z.leb_gt; lia).
  replace (0xE0 + c / 4096) with v0
    by (subst c; Z.div_mod_to_equations; lia).
  replace (0x80 + (c / 64) mod 64) with v1
    by (subst c; Z.div_mod_to_equations; lia).
  replace (0x80 + c mod 64) with v2
    by (subst c; Z.div_mod_to_equations; lia).
  reflexivity.
Qed.

Lemma encode_cp_4 v0 v1 v2 v3 :
  0xF0 <= v0 <= 0xF4 -> second4_ok v0 v1 = true ->
  is_cont v2 = true -> is_cont v3 = true ->
  utf8_encode_cp ((v0 - 0xF0) * 262144 + (v1 - 0x80) * 4096
                  + (v2 - 0x80) * 64 + (v3 - 0x80))
  = Some [byte_of_Z v0; byte_of_Z v1; byte_of_Z v2; byte_of_Z v3].
Proof.
  intros H0 H1 H2 H3. unfold is_cont in H2, H3. bool_to_Z.
  set (c := (v0 - 0xF0) * 262144 + (v1 - 0x80) * 4096
            + (v2 - 0x80) * 64 + (v3 - 0x80)).
  assert (Hv1 : 0x80 <= v1 <= 0xBF /\ 0x10000 <= c < 0x110000).
  { unfold second4_ok, is_cont in H1.
    destruct (v0 =? 0xF0) eqn:E0; [|destruct (v0 =? 0xF4) eqn:E4];
      bool_to_Z; subst c; lia. }
  destruct Hv1 as (Hv1 & Hc).
  unfold utf8_encode_cp. decide_ltb.
  replace (0xF0 + c / 262144) with v0
    by (subst c; Z.div_mod_to_equations; lia).
  replace (0x80 + (c / 4096) mod 64) with v1
    by (subst c; Z.div_mod_to_equations; lia).
  replace (0x80 + (c / 64) mod 64) with v2
    by (subst c; Z.div_mod_to_equations; lia).
  replace (0x80 + c mod 64) with v3
    by (subst c; Z.div_mod_to_equations; lia).
  reflexivity.
Qed.

Lemma option_map_cons_inv (c : Z) (o : option str) (s : str) :
  option_map (cons c) o = Some s -> exists s', o = Some s' /\ s = c :: s'.
Proof.
  destruct o as [s'|]; simpl; intros H; [|discriminate].
  injection H as <-. eauto.
Qed.

(** Decoding is injective in the strongest sense: the decoded text
    encodes back to exactly the bytes it came from. *)
Lemma utf8_roundtrip_bounded (n : nat) :
  forall bs, (length bs <= n)%nat ->
  forall s, utf8_decode bs = Some s -> utf8_encode s = Some bs.
Proof.
  induction n as [|n IH]; intros bs Hlen s Hdec.
  - destruct bs; [|simpl in Hlen; lia].
    simpl in Hdec. injection Hdec as <-. reflexivity.
  - destruct bs as [|b0 r0].
    { simpl in Hdec. injection Hdec as <-. reflexivity. }
    cbn [utf8_decode] in Hdec. cbv zeta in Hdec.
    pose proof (byte_val_range b0) as R0.
    destruct (byte_val b0 <? 0x80) eqn:E1.
    { apply option_map_cons_inv in Hdec as (s' & Hs' & ->).
      simpl in Hlen. apply IH in Hs'; [|lia].
      cbn [utf8_encode]. bool_to_Z.
      rewrite encode_cp_1, Hs' by lia. rewrite byte_of_Z_val. reflexivity. }
    destruct ((0xC2 <=? byte_val b0) && (byte_val b0 <=? 0xDF))%bool eqn:E2.
    { destruct r0 as [|b1 r1]; [discriminate|].
      destruct (is_cont (byte_val b1)) eqn:C1; [|discriminate].
      apply option_map_cons_inv in Hdec as (s' & Hs' & ->).
      simpl in Hlen. apply IH in Hs'; [|lia].
      cbn [utf8_encode]. bool_to_Z.
      rewrite encode_cp_2, Hs' by (auto; lia).
      rewrite !byte_of_Z_val. reflexivity. }
    destruct ((0xE0 <=? byte_val b0) && (byte_val b0 <=? 0xEF))%bool eqn:E3.
    { destruct r0 as [|b1 [|b2 r2]]; try discriminate.
      destruct (second3_ok (byte_val b0) (byte_val b1)) eqn:C1;
        [|discriminate].
      destruct (is_cont (byte_val b2)) eqn:C2; [|discriminate].
      cbn [andb] in Hdec.
      apply option_map_cons_inv in Hdec as (s' & Hs' & ->).
      simpl in Hlen. apply IH in Hs'; [|lia].
      cbn [utf8_encode]. bool_to_Z.
      rewrite encode_cp_3, Hs' by (auto; lia).
      rewrite !byte_of_Z_val. reflexivity. }
    destruct ((0xF0 <=? byte_val b0) && (byte_val b0 <=? 0xF4))%bool eqn:E4;
      [|discriminate].
    destruct r0 as [|b1 [|b2 [|b3 r3]]]; try discriminate.
    destruct (second4_ok (byte_val b0) (byte_val b1)) eqn:C1;
      [|discriminate].
    destruct (is_cont (byte_val b2)) eqn:C2; [|discriminate].
    destruct (is_cont (byte_val b3)) eqn:C3; [|discriminate].
    cbn [andb] in Hdec.
    apply option_map_cons_inv in Hdec as (s' & Hs' & ->).
    simpl in Hlen. apply IH in Hs'; [|lia].
    cbn [utf8_encode]. bool_to_Z.
    rewrite encode_cp_4, Hs' by (auto; lia).
    rewrite !byte_of_Z_val. reflexivity.
Qed.

Lemma utf8_decode_encode (bs : bytes) (s : str) :
  utf8_decode bs = Some s -> utf8_encode s = Some bs.
Proof. apply (utf8_roundtrip_bounded (length bs)). lia. Qed.

(** A decoded text is empty only when the bytes were. *)
Lemma utf8_decode_nil_inv (bs : bytes) :
  utf8_decode bs = Some [] -> bs = [].
Proof.
  intros H. apply utf8_decode_encode in H. simpl in H. congruence.
Qed.

(** ASCII bytes decode to themselves. *)
Lemma utf8_decode_ascii (bs : bytes) :
  Forall (fun b => byte_val b < 0x80) bs ->
  utf8_decode bs = Some (map byte_val bs).
Proof.
  induction 1 as [|b bs Hb _ IH]; [reflexivity|].
  cbn [utf8_decode map]. cbv zeta.
  replace (byte_val b <? 0x80) with true by (symmetry; apply Z.ltb_lt; lia).
  rewrite IH. reflexivity.
Qed.

(** ** The latin-1 codec *)

Lemma latin1_decode_ignore_map (bs : bytes) :
  latin1_decode_ignore bs = map byte_val bs.
Proof.
  induction bs as [|b bs IH]; [reflexivity|].
  cbn [latin1_decode_ignore map]. cbv zeta.
  pose proof (byte_val_range b) as R.
  replace ((0 <=? byte_val b) && (byte_val b <? 256))%bool with true.
  - now rewrite IH.
  - symmetry. apply andb_true_intro. split; [apply Z.leb_le|apply Z.ltb_lt]; lia.
Qed.

Lemma latin1_decode_ignore_length (bs : bytes) :
  length (latin1_decode_ignore bs) = length bs.
Proof. rewrite latin1_decode_ignore_map. apply length_map. Qed.

(** ** The probe packet *)

Lemma big_endian_length (k : nat) (n : Z) : length (big_endian k n) = k.
Proof. induction k as [|k IH]; cbn [big_endian length]; congruence. Qed.

Lemma be_fold_acc (bs : bytes) (acc : Z) :
  fold_left (fun a b => a * 256 + byte_val b) bs acc
  = acc * 256 ^ Z.of_nat (length bs) + be_value bs.
Proof.
  unfold be_value. revert acc.
  induction bs as [|b bs IH]; intros acc.
  - cbn. lia.
  - cbn [fold_left length]. rewrite IH, (IH (0 * 256 + byte_val b)).
    rewrite Nat2Z.inj_succ, Z.pow_succ_r by lia. ring.
Qed.

Lemma big_endian_byte (n i : Z) :
  0 <= i ->
  byte_val (byte_of_Z (Z.land (Z.shiftr n i) 255)) = (n / 2 ^ i) mod 256.
Proof.
  intros Hi. change 255 with (Z.ones 8).
  rewrite Z.land_ones, Z.shiftr_div_pow2 by lia.
  change (2 ^ 8) with 256.
  apply byte_val_of_Z. apply Z.mod_pos_bound. lia.
Qed.

(** The bytes of [big_endian] denote the number, modulo the width. *)
Lemma be_value_big_endian (k : nat) (n : Z) :
  be_value (big_endian k n) = n mod 2 ^ (8 * Z.of_nat k).
Proof.
  induction k as [|k IH].
  - cbn. now rewrite Z.mod_1_r.
  - cbn [big_endian]. unfold be_value. cbn [fold_left].
    rewrite be_fold_acc, IH, big_endian_length, big_endian_byte by lia.
    replace (8 * Z.of_nat (S k)) with (8 * Z.of_nat k + 8) by lia.
    rewrite Z.pow_add_r by lia. change (2 ^ 8) with 256.
    rewrite Z.rem_mul_r by (try apply Z.pow_nonzero; lia).
    replace (256 ^ Z.of_nat k) with (2 ^ (8 * Z.of_nat k)).
    + ring.
    + rewrite Z.pow_mul_r by lia. reflexivity.
Qed.

Lemma probe_packet_well_formed (ts : Z) :
  0 <= ts < 2 ^ 64 -> well_formed_probe ts (probe_packet ts).
Proof.
  intros Hts. unfold well_formed_probe, probe_packet. split.
  - rewrite !length_app, !big_endian_length. reflexivity.
  - exists (big_endian 8 ts), (big_endian 8 0).
    rewrite !big_endian_length, !be_value_big_endian.
    change (8 * Z.of_nat 8) with 64.
    rewrite Z.mod_small by exact Hts.
    repeat split; reflexivity.
Qed.

(** The only datagram a request sends is the probe packet stamped with
    the clock read by that request, addressed to the port asked. *)
Lemma request_events_sendto (w : world) (t : Q) (host : string) (p : Z)
    (packet : bytes) (h : string) (q : Z) :
  In (EvSendto packet h q) (request_events w t host p) ->
  well_formed_probe (int_of_float (clock w)) packet /\ h = host /\ q = p.
Proof.
  unfold request_events.
  destruct (socket_error w); [intros []|].
  destruct (clock_fits w) eqn:Hfit.
  - unfold clock_fits in Hfit. bool_to_Z.
    destruct (sendto_error w); cbn [app In]; intros Hin;
      decompose [or] Hin; try discriminate; try contradiction.
    match goal with
    | E : EvSendto _ _ _ = EvSendto _ _ _ |- _ => injection E as <- <- <-
    end.
    split; [|auto]. apply probe_packet_well_formed. lia.
  - cbn [app In]. intros Hin.
    decompose [or] Hin; try discriminate; contradiction.
Qed.

(** ** One probe, step by step *)

Lemma safe_decode_run (byte_str : bytes) (s : state) :
  safe_decode byte_str s = (s, Ok (decoded_text byte_str)).
Proof.
  unfold safe_decode, call, try_except, bytes_decode_utf8,
    bytes_decode_latin1_ignore, decoded_text.
  destruct s as [sk lg]. cbn [log sock].
  destruct (utf8_decode byte_str); reflexivity.
Qed.

Lemma starts_with_pong_nth (data : bytes) :
  starts_with_pong data = true <->
  exists b, nth_error data 0 = Some b /\ byte_val b = PONG.
Proof.
  destruct data as [|b rest]; cbn.
  - split; [discriminate | intros (b & H & _); discriminate].
  - rewrite Z.eqb_eq. split.
    + intros H. exists b. auto.
    + intros (b' & H & Hb). injection H as ->. exact Hb.
Qed.

(** Unfolding the monad and the socket primitives. *)
Ltac run :=
  cbv beta iota zeta delta
    [call try_finally try_except bind ret raise emit store_sock load_sock
     await run_in_executor
     socket_socket socket_settimeout time_time struct_pack_Q socket_sendto
     socket_recv socket_recvfrom socket_close bytes_getitem list_getitem
     socket_error clock sendto_error incoming sock log fst snd].

Lemma pack_zero_fits : ((0 <=? 0) && (0 <? 2 ^ 64))%bool = true.
Proof. reflexivity. Qed.

Lemma probe_packet_assoc (ts : Z) :
  (([x01] ++ big_endian 8 ts) ++ MAGIC) ++ big_endian 8 0 = probe_packet ts.
Proof. unfold probe_packet. now rewrite <- !app_assoc. Qed.

(** What [check_bedrock_port] does, for every world. *)
Lemma check_bedrock_port_run (w : world) (host : string) (p : Z) (s : state) :
  check_bedrock_port w host p s
  = (mkState (sock s) (log s ++ request_events w SCAN_TIMEOUT host p),
     probe_outcome w p).
Proof.
  destruct w as [se ck st inc]. destruct s as [sk lg].
  unfold check_bedrock_port, check_bedrock_port_try, request_events,
    probe_outcome, socket_denied, pong_received, received, clock_fits.
  destruct se as [e|]; run.
  { now rewrite app_nil_r. }
  rewrite pack_zero_fits.
  destruct ((0 <=? int_of_float ck) && (int_of_float ck <? 2 ^ 64))%bool;
    run.
  2:{ rewrite <- !app_assoc. destruct st, inc; reflexivity. }
  rewrite probe_packet_assoc.
  destruct st as [e|]; run.
  { rewrite <- !app_assoc. destruct inc; reflexivity. }
  destruct inc as [payload|e]; run.
  2:{ now rewrite <- !app_assoc. }
  destruct (firstn 1024 payload) as [|b rest] eqn:Edata.
  { cbn. now rewrite <- !app_assoc. }
  cbn [length Nat.ltb Nat.leb nth_error starts_with_pong].
  destruct (byte_val b =? PONG); rewrite <- !app_assoc; reflexivity.
Qed.

(** What [get_server_info] does, for every world. *)
Lemma get_server_info_run (w : world) (host : string) (p : Z) (s : state) :
  get_server_info w host p s
  = (mkState (sock s) (log s ++ request_events w 2 host p),
     status_outcome w p).
Proof.
  destruct w as [se ck st inc]. destruct s as [sk lg].
  unfold get_server_info, get_server_info_try, request_events,
    status_outcome, socket_denied, received, clock_fits.
  destruct se as [e|]; run.
  { now rewrite app_nil_r. }
  destruct ((0 <=? int_of_float ck) && (int_of_float ck <? 2 ^ 64))%bool;
    run.
  2:{ rewrite <- !app_assoc. destruct st, inc; reflexivity. }
  rewrite pack_zero_fits.
  change ([x01] ++ big_endian 8 (int_of_float ck) ++ MAGIC ++ big_endian 8 0)
    with (probe_packet (int_of_float ck)).
  destruct st as [e|]; run.
  { rewrite <- !app_assoc. destruct inc; reflexivity. }
  destruct inc as [payload|e]; run.
  2:{ now rewrite <- !app_assoc. }
  unfold parse_status.
  destruct (firstn 2048 payload) as [|b rest] eqn:Edata.
  { cbn. now rewrite <- !app_assoc. }
  cbn [nth_error starts_with_pong].
  destruct (byte_val b =? PONG); cbn [negb].
  2:{ now rewrite <- !app_assoc. }
  remember (split SEMICOLON (skipn 33 (b :: rest))) as fields eqn:Ef.
  clear Ef.
  do 10 (destruct fields as [|? fields];
         [cbn; now rewrite <- !app_assoc|]).
  cbn [length Nat.ltb Nat.leb nth_error].
  repeat (rewrite safe_decode_run; run).
  now rewrite <- !app_assoc.
Qed.

(** ** Ranges of ports *)

Lemma in_py_range (lo hi p : Z) : In p (py_range lo hi) <-> lo <= p < hi.
Proof.
  unfold py_range. rewrite in_map_iff. split.
  - intros (i & <- & Hi). apply in_seq in Hi. lia.
  - intros H. exists (Z.to_nat (p - lo)). split; [lia|].
    apply in_seq. lia.
Qed.

Lemma NoDup_py_range (lo hi : Z) : NoDup (py_range lo hi).
Proof.
  unfold py_range. apply Injective_map_NoDup.
  - intros i j H. lia.
  - apply seq_NoDup.
Qed.

Lemma in_ports_of (port_range : Z * Z) (p : Z) :
  In p (ports_of port_range) <-> fst port_range <= p <= snd port_range.
Proof. unfold ports_of. rewrite in_py_range. lia. Qed.

Lemma mem_true_iff (ports : list Z) (p : Z) : mem ports p = true <-> In p ports.
Proof.
  unfold mem. rewrite existsb_exists. split.
  - intros (q & Hq & E). apply Z.eqb_eq in E. now subst.
  - intros H. exists p. split; [exact H | apply Z.eqb_refl].
Qed.

Lemma filter_all_true {A} (f : A -> bool) (l : list A) :
  (forall x, In x l -> f x = true) -> filter f l = l.
Proof.
  induction l as [|a l IH]; intros H; [reflexivity|].
  cbn. rewrite (H a (or_introl eq_refl)). f_equal.
  apply IH. intros x Hx. apply H. now right.
Qed.

Lemma filter_mem_permutation (ports order : list Z) :
  Permutation order ports -> filter (mem ports) order = order.
Proof.
  intros HP. apply filter_all_true. intros p Hp.
  apply mem_true_iff. eapply Permutation_in; eauto.
Qed.

(** ** The scan loop *)

Section ScanLoop.

Variable net : Z -> world.
Variable host : string.

Lemma submit_probes_run (ex : executor) (ports : list Z) (s : state) :
  submit_probes ex net host ports s
  = (mkState (sock s) (log s ++ probe_events net host ports),
     Ok (map (fun p => (p, held net p)) ports)).
Proof.
  revert s. induction ports as [|p ports IH]; intros [sk lg].
  - cbn. now rewrite app_nil_r.
  - cbn [submit_probes]. unfold bind at 1, run_in_executor.
    rewrite check_bedrock_port_run. unfold bind at 1. rewrite IH.
    fold (held net p).
    cbn [ret sock log map probe_events flat_map].
    unfold probe_events. now rewrite <- app_assoc.
Qed.

Lemma future_of_submitted (ports : list Z) (p : Z) :
  future_of (map (fun q => (q, held net q)) ports) p
  = if mem ports p then Some (held net p) else None.
Proof.
  unfold future_of, mem.
  induction ports as [|q ports IH]; [reflexivity|].
  cbn [map find fst existsb]. rewrite (Z.eqb_sym q p).
  destruct (p =? q) eqn:E.
  - apply Z.eqb_eq in E. now subst.
  - exact IH.
Qed.

Lemma as_completed_submitted (ports order : list Z) :
  as_completed order (map (fun q => (q, held net q)) ports)
  = map (held net) (filter (mem ports) order).
Proof.
  induction order as [|p order IH]; [reflexivity|].
  cbn [as_completed filter]. rewrite future_of_submitted.
  destruct (mem ports p); cbn [map]; now rewrite IH.
Qed.

Lemma collect_active_run (l acc : list Z) (s : state) :
  collect_active (map (held net) l) acc s
  = (s, if existsb (fun p => socket_denied (net p)) l
        then Raise UnboundLocalError
        else Ok (acc ++ filter (fun p => pong_received (net p)) l)).
Proof.
  revert acc. induction l as [|p l IH]; intros acc.
  - cbn. now rewrite app_nil_r.
  - cbn [map collect_active existsb filter].
    unfold held at 1, probe_outcome.
    destruct (socket_denied (net p)); [reflexivity|].
    cbn [orb]. unfold bind, await, ret.
    destruct (pong_received (net p)); rewrite IH.
    + now rewrite <- app_assoc.
    + reflexivity.
Qed.

(** What [scan_ports] does, for every network and completion order. *)
Lemma scan_ports_in_run (port_range : Z * Z) (order : list Z) (s : state) :
  let ports := ports_of port_range in
  let finished := filter (mem ports) order in
  scan_ports_in port_range net order host s
  = (mkState (sock s) (log s ++ probe_events net host ports),
     if existsb (fun p => socket_denied (net p)) finished
     then Raise UnboundLocalError
     else Ok (filter (fun p => pong_received (net p)) finished)).
Proof.
  intros ports finished. unfold scan_ports_in, call.
  unfold bind. rewrite submit_probes_run.
  rewrite as_completed_submitted.
  rewrite collect_active_run. reflexivity.
Qed.

(** Every socket a request opens is released by that request. *)
Lemma request_events_released (w : world) (t : Q) (p : Z) :
  count_occ event_eq_dec (request_events w t host p) EvSocket
  = count_occ event_eq_dec (request_events w t host p) EvClose.
Proof.
  unfold request_events. destruct (socket_error w); [reflexivity|].
  destruct (clock_fits w); [destruct (sendto_error w)|];
    rewrite !count_occ_app; cbn [count_occ app];
    repeat match goal with
           | |- context [event_eq_dec ?a ?b] =>
               destruct (event_eq_dec a b); try discriminate
           end;
    try contradiction; reflexivity.
Qed.

(** The datagrams of all the probes of a scan are probe packets. *)
Lemma probe_events_sendto (ports : list Z) (packet : bytes) (h : string)
    (q : Z) :
  In (EvSendto packet h q) (probe_events net host ports) ->
  In q ports /\ h = host
  /\ well_formed_probe (int_of_float (clock (net q))) packet.
Proof.
  unfold probe_events. rewrite in_flat_map. intros (p & Hp & Hin).
  apply request_events_sendto in Hin as (Hwf & -> & ->). auto.
Qed.

End ScanLoop.

(** ** The aggregator *)

(** What [scan_server] does between its two clock readings and the call
    of [format_results], for every environment. *)
Lemma scan_server_in_run (port_range : Z * Z) (env : environment)
    (host : string) (s : state) :
  let ports := ports_of port_range in
  let finished := filter (mem ports) (completion env) in
  let active := filter (fun p => pong_received (probe_net env p)) finished in
  let scan_time := float_sub (end_clock env) (start_clock env) in
  scan_server_in port_range env host s
  = if existsb (fun p => socket_denied (probe_net env p)) finished
    then (mkState (sock s) (log s ++ probe_events (probe_net env) host ports),
          Raise UnboundLocalError)
    else
      match active with
      | [] =>
          (mkState (sock s)
             (log s ++ probe_events (probe_net env) host ports),
           Ok (mkScanResult host [] None scan_time))
      | first_port :: _ =>
          (mkState (sock s)
             ((log s ++ probe_events (probe_net env) host ports)
              ++ request_events (status_net env first_port) 2 host first_port),
           match status_outcome (status_net env first_port) first_port with
           | Ok info => Ok (mkScanResult host active info scan_time)
           | Raise e => Raise e
           end)
      end.
Proof.
  intros ports finished active scan_time.
  unfold scan_server_in, call. unfold bind at 1.
  rewrite scan_ports_in_run. fold ports finished active.
  destruct (existsb _ finished); [reflexivity|].
  destruct active as [|first_port rest]; [reflexivity|].
  cbn [length Nat.eqb negb list_getitem nth_error].
  unfold bind, ret. rewrite get_server_info_run.
  cbn [sock log].
  destruct (status_outcome (status_net env first_port) first_port);
    reflexivity.
Qed.

(** Every datagram of a whole scan, status request included, is a
    probe packet for the host asked. *)
Lemma scan_server_datagrams (port_range : Z * Z) (env : environment)
    (host : string) (s : state) (packet : bytes) (h : string) (q : Z) :
  In (EvSendto packet h q) (log_after (scan_server_in port_range env host) s)
  -> In (EvSendto packet h q) (log s)
     \/ (h = host /\ exists ts, well_formed_probe ts packet).
Proof.
  unfold log_after. rewrite scan_server_in_run.
  destruct (existsb _ _); [|destruct (filter _ _) as [|p0 rest]];
    cbn [fst log]; rewrite ?in_app_iff; intros H;
    decompose [or] H; auto; right.
  - match goal with
    | E : In _ (probe_events _ _ _) |- _ =>
        apply probe_events_sendto in E as (_ & -> & Hwf)
    end. eauto.
  - match goal with
    | E : In _ (probe_events _ _ _) |- _ =>
        apply probe_events_sendto in E as (_ & -> & Hwf)
    end. eauto.
  - match goal with
    | E : In _ (probe_events _ _ _) |- _ =>
        apply probe_events_sendto in E as (_ & -> & Hwf)
    end. eauto.
  - match goal with
    | E : In _ (request_events _ _ _ _) |- _ =>
        apply request_events_sendto in E as (Hwf & -> & ->)
    end. eauto.
Qed.

(** ** The probe classifies *)

Lemma check_bedrock_port_with_socket (w : world) (host : string) (p : Z)
    (s : state) :
  socket_error w = None ->
  outcome (check_bedrock_port w host p) s = Ok (p, pong_received w).
Proof.
  intros H. unfold outcome. rewrite check_bedrock_port_run.
  unfold probe_outcome, socket_denied. now rewrite H.
Qed.

Lemma check_bedrock_port_without_socket (w : world) (host : string) (p : Z)
    (s : state) (e : exn) :
  socket_error w = Some e ->
  outcome (check_bedrock_port w host p) s = Raise UnboundLocalError.
Proof.
  intros H. unfold outcome. rewrite check_bedrock_port_run.
  unfold probe_outcome, socket_denied. now rewrite H.
Qed.

(** Open means: a datagram was read and its first byte is [0x1C]. *)
Lemma pong_received_iff (w : world) :
  pong_received w = true <->
  exists data b, received w 1024 = Some data
                 /\ nth_error data 0 = Some b /\ byte_val b = 0x1c.
Proof.
  unfold pong_received. destruct (received w 1024) as [data|].
  - rewrite starts_with_pong_nth. split.
    + intros (b & H1 & H2). exists data, b. auto.
    + intros (d & b & H0 & H1 & H2). injection H0 as <-. eauto.
  - split; [discriminate | intros (d & b & H & _); discriminate].
Qed.

(** Every exception met once the socket exists classifies as closed. *)
Lemma exception_means_closed (w : world) (host : string) (p : Z) (s : state) :
  socket_error w = None ->
  (exists e, sendto_error w = Some e) \/ (exists e, incoming w = RecvRaises e)
  \/ clock_fits w = false ->
  outcome (check_bedrock_port w host p) s = Ok (p, false).
Proof.
  intros Hs H. rewrite check_bedrock_port_with_socket by exact Hs.
  do 2 f_equal. unfold pong_received, received. rewrite Hs.
  destruct H as [[e H]|[[e H]|H]]; rewrite H.
  - reflexivity.
  - now destruct (sendto_error w).
  - now destruct (sendto_error w), (incoming w).
Qed.

(** C1 (the defect): when [socket.socket] itself raises, the bare
    [except] swallows the error but the [finally] clause then reads the
    local [sock], which was never assigned; the resulting
    [UnboundLocalError] leaves [check_bedrock_port] instead of the pair
    [(port, False)]. *)
Theorem check_bedrock_port_unbound_sock :
  outcome (check_bedrock_port exhausted_world "play.example.net" 19132) boot
  = Raise UnboundLocalError.
Proof. vm_compute. reflexivity. Qed.

(** ** The status request *)

Lemma get_server_info_with_socket (w : world) (host : string) (p : Z)
    (s : state) :
  socket_error w = None ->
  outcome (get_server_info w host p) s
  = Ok (match received w 2048 with
        | Some data => parse_status p data
        | None => None
        end).
Proof.
  intros H. unfold outcome. rewrite get_server_info_run.
  unfold status_outcome, socket_denied. now rewrite H.
Qed.

(** Once the socket exists, no reply behaviour makes [get_server_info]
    raise. *)
Lemma get_server_info_never_raises_with_socket (w : world) (host : string)
    (p : Z) (s : state) :
  socket_error w = None ->
  exists r, outcome (get_server_info w host p) s = Ok r.
Proof.
  intros H. rewrite get_server_info_with_socket by exact H. eauto.
Qed.

(** C4 (the defect): when [socket.socket] raises inside
    [get_server_info], [except: return None] runs, and then the
    [finally] clause reads the unassigned local [sock]; the
    [UnboundLocalError] replaces the pending [None] and reaches the
    caller. *)
Theorem get_server_info_unbound_sock :
  outcome (get_server_info exhausted_world "play.example.net" 19132) boot
  = Raise UnboundLocalError.
Proof. vm_compute. reflexivity. Qed.

(** ** Text decoding *)

Lemma verbatim_decoded_text (token : bytes) :
  verbatim (decoded_text token) token.
Proof.
  split; [reflexivity|]. intros v Hv. unfold decoded_text. rewrite Hv.
  split; [reflexivity | now apply utf8_decode_encode].
Qed.

Lemma decoded_text_nonempty (byte_str : bytes) :
  byte_str <> [] -> decoded_text byte_str <> [].
Proof.
  intros Hne. unfold decoded_text.
  destruct (utf8_decode byte_str) as [v|] eqn:E.
  - intros ->. apply Hne. now apply utf8_decode_nil_inv.
  - intros H. apply (f_equal (@length Z)) in H.
    rewrite latin1_decode_ignore_length in H.
    destruct byte_str; [congruence | discriminate].
Qed.

(** C8: [safe_decode] returns a text for every byte string and leaves
    the state alone: the UTF-8 text when the bytes are valid UTF-8,
    otherwise the latin-1 reading of the bytes, one character per byte;
    a non-empty field always yields a non-empty text. *)
Theorem safe_decode_total (byte_str : bytes) (s : state) :
  exists txt : str,
    safe_decode byte_str s = (s, Ok txt)
    /\ match utf8_decode byte_str with
       | Some v => txt = v
       | None => txt = latin1_decode_ignore byte_str
                 /\ length txt = length byte_str
       end
    /\ (byte_str <> [] -> txt <> []).
Proof.
  exists (decoded_text byte_str). split; [apply safe_decode_run|]. split.
  - unfold decoded_text. destruct (utf8_decode byte_str); [reflexivity|].
    split; [reflexivity | apply latin1_decode_ignore_length].
  - apply decoded_text_nonempty.
Qed.

Lemma safe_decode_total_witness :
  exists txt : str,
    safe_decode garbled_name boot = (boot, Ok txt)
    /\ utf8_decode garbled_name = None
    /\ txt <> [].
Proof.
  destruct (safe_decode_total garbled_name boot) as (txt & Hrun & _ & Hne).
  exists txt. split; [exact Hrun|]. split; [reflexivity|].
  apply Hne. discriminate.
Defined.

Example safe_decode_garbled_name :
  outcome (safe_decode garbled_name) boot = Ok [255; 65; 128].
Proof. reflexivity. Qed.

(** ** The status record *)

(** C2: for a reply that starts with [0x1C], [get_server_info] returns a
    record exactly when the bytes from offset 33 on split into at least
    ten fields (so in particular for exactly ten), and [None] when they
    split into fewer; the nine text fields of the record render tokens 0
    to 8 verbatim, and the record carries the port asked. *)
Theorem get_server_info_fields (w : world) (host : string) (p : Z)
    (s : state) (data : bytes) :
  received w 2048 = Some data ->
  starts_with_pong data = true ->
  let fields := split SEMICOLON (skipn 33 data) in
  match outcome (get_server_info w host p) s with
  | Ok (Some info) =>
      (10 <= length fields)%nat
      /\ Forall2 verbatim (text_fields info) (firstn 9 fields)
      /\ port info = p
  | Ok None => (length fields < 10)%nat
  | Raise _ => False
  end.
Proof.
  intros Hrecv Hpong fields.
  assert (Hsock : socket_error w = None).
  { unfold received in Hrecv. now destruct (socket_error w). }
  rewrite get_server_info_with_socket, Hrecv by exact Hsock.
  unfold parse_status. rewrite Hpong. fold fields.
  do 10 (destruct fields as [|? fields]; [cbn; lia|]).
  cbn [length firstn text_fields edition motd protocol version players
         max_players server_id server_name gamemode port].
  split; [lia|]. split; [|reflexivity].
  repeat (constructor; [apply verbatim_decoded_text|]). constructor.
Qed.

Lemma get_server_info_fields_witness :
  received ten_field_world 2048 = Some ten_field_reply
  /\ starts_with_pong ten_field_reply = true
  /\ let fields := split SEMICOLON (skipn 33 ten_field_reply) in
     match
       outcome (get_server_info ten_field_world "play.example.net" 19131) boot
     with
     | Ok (Some info) =>
         (10 <= length fields)%nat
         /\ Forall2 verbatim (text_fields info) (firstn 9 fields)
         /\ port info = 19131
     | Ok None => (length fields < 10)%nat
     | Raise _ => False
     end.
Proof.
  split; [reflexivity|]. split; [reflexivity|].
  apply (get_server_info_fields ten_field_world "play.example.net" 19131
           boot ten_field_reply); reflexivity.
Defined.

Example get_server_info_ten_fields :
  outcome (get_server_info ten_field_world "play.example.net" 19131) boot
  = Ok (Some {| edition := text "MCPE";
                motd := text "My Server";
                protocol := text "422";
                version := text "1.19";
                players := text "3";
                max_players := text "10";
                server_id := text "GUID1";
                server_name := text "Survival World";
                gamemode := text "Survival";
                port := 19131 |}).
Proof. vm_compute. reflexivity. Qed.

(** With nine fields there is no record. *)
Example get_server_info_nine_fields :
  outcome
    (get_server_info
       (mkWorld None sample_clock None
          (Datagram
             (x1c :: repeat x00 32
              ++ list_byte_of_string
                   "MCPE;My Server;422;1.19;3;10;GUID1;Survival World;Survival")))
       "play.example.net" 19131) boot
  = Ok None.
Proof. vm_compute. reflexivity. Qed.

(** ** The datagrams on the wire *)



Example probe_datagram_sample :
  log_after (check_bedrock_port pong_world "play.example.net" 19131) boot
  = [EvSocket; EvSetTimeout SCAN_TIMEOUT;
     EvSendto
       ([x01; x00; x00; x00; x00; x66; x85; x05; x00]
        ++ MAGIC ++ [x00; x00; x00; x00; x00; x00; x00; x00])
       "play.example.net" 19131;
     EvClose].
Proof. vm_compute. reflexivity. Qed.

(** ** Order and multiplicity of the reported ports *)

Lemma Permutation_filter' {A} (f : A -> bool) (l l' : list A) :
  Permutation l l' -> Permutation (filter f l) (filter f l').
Proof.
  induction 1 as [|x l l' _ IH|x y l|l l' l'' _ IH1 _ IH2]; cbn.
  - constructor.
  - destruct (f x); [now constructor | exact IH].
  - destruct (f x), (f y); try apply Permutation_refl.
    apply perm_swap.
  - eapply perm_trans; eauto.
Qed.



Lemma filter_none {A} (f : A -> bool) (l : list A) :
  (forall x, In x l -> f x = false) -> filter f l = [].
Proof.
  induction l as [|a l IH]; intros H; [reflexivity|].
  cbn. rewrite (H a (or_introl eq_refl)). apply IH.
  intros x Hx. apply H. now right.
Qed.

Lemma filter_singleton (f : Z -> bool) (l : list Z) (P : Z) :
  NoDup l -> In P l -> f P = true ->
  (forall p, In p l -> p <> P -> f p = false) ->
  filter f l = [P].
Proof.
  induction l as [|a l IH]; intros Hnd Hin HP Hothers; [destruct Hin|].
  inversion Hnd as [|? ? Hnotin Hnd']; subst. cbn [filter].
  destruct (Z.eq_dec a P) as [->|Hne].
  - rewrite HP. f_equal. apply filter_none.
    intros x Hx. apply Hothers; [now right|].
    intros ->. contradiction.
  - rewrite (Hothers a (or_introl eq_refl) Hne).
    apply IH; auto.
    + destruct Hin as [->|Hin]; [contradiction | exact Hin].
    + intros p Hp. apply Hothers. now right.
Qed.

Lemma no_socket_denied (net : Z -> world) (l : list Z) :
  (forall p, In p l -> socket_error (net p) = None) ->
  existsb (fun p => socket_denied (net p)) l = false.
Proof.
  intros H. induction l as [|a l IH]; [reflexivity|].
  cbn [existsb]. unfold socket_denied at 1.
  rewrite (H a (or_introl eq_refl)). cbn [orb].
  apply IH. intros p Hp. apply H. now right.
Qed.

Lemma some_socket_denied (net : Z -> world) (l : list Z) :
  existsb (fun p => socket_denied (net p)) l = true ->
  exists p, In p l /\ socket_denied (net p) = true.
Proof. intros H. apply existsb_exists in H. exact H. Qed.

(** What [scan_ports] returns when the completion order is a
    permutation of the submitted probes. *)
Lemma scan_ports_in_outcome (port_range : Z * Z) (net : Z -> world)
    (order : list Z) (host : string) (s : state) :
  Permutation order (ports_of port_range) ->
  outcome (scan_ports_in port_range net order host) s
  = if existsb (fun p => socket_denied (net p)) order
    then Raise UnboundLocalError
    else Ok (filter (fun p => pong_received (net p)) order).
Proof.
  intros HP. unfold outcome. rewrite scan_ports_in_run. cbn [snd].
  now rewrite (filter_mem_permutation _ _ HP).
Qed.

(** C6: when the OS grants each probe its socket, [scan_ports] returns,
    for every range, every behaviour of the remote ports and every
    completion order, a list of ports of the range each of which
    answered with the pong id byte; if one port P answers with a pong and
    no other port of the range does, the list is exactly [[P]]. *)
Theorem scan_ports_sound (low high : Z) (net : Z -> world) (order : list Z)
    (host : string) (s : state) :
  low <= high ->
  Permutation order (ports_of (low, high)) ->
  (forall p, low <= p <= high -> socket_error (net p) = None) ->
  exists active,
    outcome (scan_ports_in (low, high) net order host) s = Ok active
    /\ (forall p, In p active ->
          low <= p <= high /\ pong_received (net p) = true)
    /\ (forall P, low <= P <= high -> pong_received (net P) = true ->
          (forall p, low <= p <= high -> p <> P ->
                     pong_received (net p) = false) ->
          active = [P]).
Proof.
  intros _ HP Hsock.
  assert (Hin : forall p, In p order <-> low <= p <= high).
  { intros p. rewrite <- (in_ports_of (low, high)). split; intros H.
    - eapply Permutation_in; eauto.
    - eapply Permutation_in; [apply Permutation_sym|]; eauto. }
  exists (filter (fun p => pong_received (net p)) order).
  split; [|split].
  - rewrite scan_ports_in_outcome by exact HP.
    rewrite no_socket_denied; [reflexivity|].
    intros p Hp. apply Hsock, Hin, Hp.
  - intros p Hp. apply filter_In in Hp as [Hp Hpong].
    split; [apply Hin, Hp | exact Hpong].
  - intros P HPr HPpong Hothers. apply filter_singleton.
    + eapply Permutation_NoDup; [apply Permutation_sym; exact HP|].
      apply NoDup_py_range.
    + apply Hin, HPr.
    + exact HPpong.
    + intros p Hp Hne. apply Hothers; [apply Hin, Hp | exact Hne].
Qed.

Lemma scan_ports_sound_witness :
  exists active,
    outcome (scan_ports_in (19130, 19132) lone_server_net
               [19132; 19131; 19130] "play.example.net") boot = Ok active
    /\ active = [19131].
Proof.
  destruct (scan_ports_sound 19130 19132 lone_server_net
              [19132; 19131; 19130] "play.example.net" boot)
    as (active & Hrun & _ & Hone).
  - lia.
  - apply (Permutation_sym (Permutation_rev [19130; 19131; 19132])).
  - intros p _. unfold lone_server_net. destruct (p =? 19131); reflexivity.
  - exists active. split; [exact Hrun|].
    apply (Hone 19131); [lia | reflexivity |].
    intros p _ Hne. unfold lone_server_net.
    destruct (p =? 19131) eqn:E; [|reflexivity].
    apply Z.eqb_eq in E. contradiction.
Defined.

Lemma NoDup_count_occ_le (l : list Z) (p : Z) :
  NoDup l -> (count_occ Z.eq_dec l p <= 1)%nat.
Proof. intros H. now apply NoDup_count_occ. Qed.

(** C10 (the defect): the exception exit on which [socket.socket]
    failed returns no pair at all, with the port or without: the
    [UnboundLocalError] of [finally: sock.close()] (the slip of C1)
    leaves [check_bedrock_port], and a scan that meets it at one port
    returns no list. *)
Theorem probe_exception_exit_returns_no_pair :
  (forall result : Z * bool,
      outcome (check_bedrock_port exhausted_world "play.example.net" 19132)
        boot
      <> Ok result)
  /\ (forall active : list Z,
        outcome (scan_ports (probe_net starved_silent_env)
                   (ports_of PORT_RANGE) "play.example.net") boot
        <> Ok active).
Proof.
  split.
  - intros result.
    rewrite (check_bedrock_port_without_socket exhausted_world _ _ _ OSError
               eq_refl).
    discriminate.
  - intros active.
    replace (outcome (scan_ports (probe_net starved_silent_env)
                        (ports_of PORT_RANGE) "play.example.net") boot)
      with (@Raise (list Z) UnboundLocalError) by (vm_compute; reflexivity).
    discriminate.
Qed.

(** X23: every pair [check_bedrock_port] returns carries the port it was
    called with and the verdict of its own reply (it returns no pair
    only where no socket could be opened); and since each future is
    consumed once, the list [scan_ports] returns holds no port twice,
    each of its ports being a port of the range whose own probe
    returned [(port, True)]. *)
Theorem active_ports_no_duplicates (port_range : Z * Z) (net : Z -> world)
    (order : list Z) (host : string) (s : state) :
  Permutation order (ports_of port_range) ->
  (forall p t,
      match outcome (check_bedrock_port (net p) host p) t with
      | Ok (q, is_active) => q = p /\ is_active = pong_received (net p)
      | Raise _ => socket_denied (net p) = true
      end)
  /\ match outcome (scan_ports_in port_range net order host) s with
     | Ok active =>
         NoDup active
         /\ (forall p, (count_occ Z.eq_dec active p <= 1)%nat)
         /\ (forall p, In p active ->
               In p (ports_of port_range)
               /\ forall t, outcome (check_bedrock_port (net p) host p) t
                            = Ok (p, true))
     | Raise _ =>
         exists p, In p (ports_of port_range) /\ socket_denied (net p) = true
     end.
Proof.
  intros HP. split.
  - intros p t. unfold outcome. rewrite check_bedrock_port_run. cbn [snd].
    unfold probe_outcome. destruct (socket_denied (net p)); auto.
  - rewrite scan_ports_in_outcome by exact HP.
    assert (Hnd : NoDup order).
    { eapply Permutation_NoDup; [apply Permutation_sym; exact HP|].
      apply NoDup_py_range. }
    destruct (existsb _ order) eqn:Hden.
    + apply some_socket_denied in Hden as (p & Hp & Hd).
      exists p. split; [eapply Permutation_in; eauto | exact Hd].
    + assert (Hnd' : NoDup (filter (fun p => pong_received (net p)) order))
        by now apply NoDup_filter.
      split; [exact Hnd'|]. split.
      * intros p. now apply NoDup_count_occ_le.
      * intros p Hp. apply filter_In in Hp as [Hp Hpong]. split.
        -- eapply Permutation_in; eauto.
        -- intros t. unfold outcome. rewrite check_bedrock_port_run.
           cbn [snd]. unfold probe_outcome.
           assert (Hs : socket_denied (net p) = false).
           { destruct (socket_denied (net p)) eqn:E; [|reflexivity].
             rewrite <- Hden. symmetry. apply existsb_exists. eauto. }
           now rewrite Hs, Hpong.
Qed.

Lemma active_ports_no_duplicates_witness :
  match
    outcome (scan_ports_in PORT_RANGE two_servers_net
               (rev (ports_of PORT_RANGE)) "play.example.net") boot
  with
  | Ok active => NoDup active /\ active = [19131; 19130]
  | Raise _ => False
  end.
Proof.
  pose proof (active_ports_no_duplicates PORT_RANGE two_servers_net
                (rev (ports_of PORT_RANGE)) "play.example.net" boot
                (Permutation_sym (Permutation_rev (ports_of PORT_RANGE))))
    as [_ H].
  revert H.
  replace (outcome (scan_ports_in PORT_RANGE two_servers_net
                      (rev (ports_of PORT_RANGE)) "play.example.net") boot)
    with (@Ok (list Z) [19131; 19130]) by (vm_compute; reflexivity).
  intros (Hnd & _). split; [exact Hnd | reflexivity].
Defined.

(** ** What [format_results] is handed *)




(** ** The elapsed time *)

Lemma pow2_pred (d : Z) : 1 <= d -> 2 ^ d = 2 * 2 ^ (d - 1).
Proof.
  intros H. rewrite <- Z.pow_succ_r by lia. f_equal. lia.
Qed.

Lemma digits2_pos_bounds (m : positive) :
  2 ^ (Z.pos (digits2_pos m) - 1) <= Z.pos m < 2 ^ Z.pos (digits2_pos m).
Proof.
  induction m as [m IH|m IH|]; cbn [digits2_pos].
  - rewrite Pos2Z.inj_succ.
    replace (Z.succ (Z.pos (digits2_pos m)) - 1)
      with (Z.pos (digits2_pos m)) by lia.
    rewrite Z.pow_succ_r by lia.
    rewrite (pow2_pred (Z.pos (digits2_pos m))) in * by lia. lia.
  - rewrite Pos2Z.inj_succ.
    replace (Z.succ (Z.pos (digits2_pos m)) - 1)
      with (Z.pos (digits2_pos m)) by lia.
    rewrite Z.pow_succ_r by lia.
    rewrite (pow2_pred (Z.pos (digits2_pos m))) in * by lia. lia.
  - cbn. lia.
Qed.

Lemma shr_1_m (r : shr_record) :
  0 <= shr_m r -> shr_m (shr_1 r) = shr_m r / 2.
Proof.
  destruct r as [m r s]. cbn [shr_m]. intros H.
  destruct m as [|[p|p|]|p]; cbn [shr_1 shr_m].
  - reflexivity.
  - apply Z.div_unique with 1; lia.
  - apply Z.div_unique with 0; lia.
  - reflexivity.
  - lia.
Qed.

Lemma iter_shr_1_m (p : positive) (r : shr_record) :
  0 <= shr_m r -> shr_m (iter_pos shr_1 p r) = shr_m r / 2 ^ Z.pos p.
Proof.
  revert r. induction p as [p IH|p IH|]; intros r H; cbn [iter_pos].
  - assert (Hp : 0 < 2 ^ Z.pos p) by (apply Z.pow_pos_nonneg; lia).
    assert (H1 : 0 <= shr_m (shr_1 r)).
    { rewrite shr_1_m by exact H. apply Z.div_pos; lia. }
    assert (H2 : 0 <= shr_m (iter_pos shr_1 p (shr_1 r))).
    { rewrite IH by exact H1. now apply Z.div_pos. }
    rewrite IH by exact H2. rewrite IH by exact H1.
    rewrite shr_1_m by exact H.
    rewrite !Z.div_div by lia.
    replace (Z.pos p~1) with (1 + Z.pos p + Z.pos p) by lia.
    rewrite !Z.pow_add_r by lia. rewrite Z.pow_1_r. f_equal. lia.
  - assert (Hp : 0 < 2 ^ Z.pos p) by (apply Z.pow_pos_nonneg; lia).
    assert (H2 : 0 <= shr_m (iter_pos shr_1 p r)).
    { rewrite IH by exact H. now apply Z.div_pos. }
    rewrite IH by exact H2. rewrite IH by exact H.
    rewrite !Z.div_div by lia.
    replace (Z.pos p~0) with (Z.pos p + Z.pos p) by lia.
    rewrite !Z.pow_add_r by lia. reflexivity.
  - rewrite shr_1_m by exact H. reflexivity.
Qed.

(** Shifting a mantissa into the format never loses all of it. *)
Lemma shr_fexp_positive (m : positive) (e : Z) (l : location) :
  -1074 <= e ->
  0 < shr_m (fst (shr_fexp 53 1024 (Z.pos m) e l))
  /\ -1074 <= snd (shr_fexp 53 1024 (Z.pos m) e l).
Proof.
  intros He. unfold shr_fexp, shr, fexp, emin. cbn [Zdigits2].
  assert (Hm : shr_m (shr_record_of_loc (Z.pos m) l) = Z.pos m)
    by (destruct l as [|[]]; reflexivity).
  destruct (Z.max (Z.pos (digits2_pos m) + e - 53) (3 - 1024 - 53) - e)
    as [|n|n] eqn:En; cbn [fst snd]; rewrite ?Hm; try lia.
  rewrite iter_shr_1_m by (rewrite Hm; lia). rewrite Hm. split; [|lia].
  pose proof (digits2_pos_bounds m) as [Hlow _].
  assert (Hn : Z.pos n = Z.pos (digits2_pos m) - 53) by lia.
  assert (Hpow : 0 < 2 ^ Z.pos n) by (apply Z.pow_pos_nonneg; lia).
  apply Z.div_str_pos. split; [exact Hpow|].
  apply Z.le_trans with (2 ^ (Z.pos (digits2_pos m) - 1)); [|exact Hlow].
  apply Z.pow_le_mono_r; lia.
Qed.

Lemma round_nearest_even_positive (m : Z) (l : location) :
  0 < m -> 0 < round_nearest_even m l.
Proof.
  intros H. destruct l as [|[]]; cbn [round_nearest_even]; try lia.
  destruct (Z.even m); lia.
Qed.

(** A non-zero mantissa rounds to a number of its sign, or overflows
    to the infinity of its sign. *)
Lemma binary_round_aux_sign (sx : bool) (m : positive) (e : Z)
    (l : location) :
  -1074 <= e ->
  (exists m' e', binary_round_aux 53 1024 sx (Z.pos m) e l
                 = S754_finite sx m' e')
  \/ binary_round_aux 53 1024 sx (Z.pos m) e l = S754_infinity sx.
Proof.
  intros He. unfold binary_round_aux.
  destruct (shr_fexp_positive m e l He) as [H1 H1e].
  destruct (shr_fexp 53 1024 (Z.pos m) e l) as [r1 e1]. cbn [fst snd] in *.
  pose proof (round_nearest_even_positive (shr_m r1) (loc_of_shr_record r1) H1)
    as H2.
  destruct (round_nearest_even (shr_m r1) (loc_of_shr_record r1))
    as [|m2|m2]; try lia.
  destruct (shr_fexp_positive m2 e1 loc_Exact H1e) as [H3 _].
  destruct (shr_fexp 53 1024 (Z.pos m2) e1 loc_Exact) as [r3 e3].
  cbn [fst snd] in *.
  destruct (shr_m r3) as [|m3|m3]; try lia.
  destruct (e3 <=? 1024 - 53); eauto.
Qed.

Lemma binary_round_sign (sx : bool) (m : positive) (e : Z) :
  -1074 <= e ->
  (exists m' e', binary_round 53 1024 sx m e = S754_finite sx m' e')
  \/ binary_round 53 1024 sx m e = S754_infinity sx.
Proof.
  intros He. unfold binary_round.
  destruct (shl_align m e (fexp 53 1024 (Z.pos (digits2_pos m) + e)))
    as [mz ez] eqn:E.
  apply binary_round_aux_sign.
  unfold shl_align, fexp, emin in E.
  destruct (Z.max (Z.pos (digits2_pos m) + e - 53) (3 - 1024 - 53) - e)
    eqn:En; injection E as _ <-; lia.
Qed.

(** [x >= 0] for the float nearest to [d * 2^e]. *)
Lemma binary_normalize_sign (d e : Z) :
  -1074 <= e ->
  float_le float_zero (binary_normalize 53 1024 d e false) = (0 <=? d).
Proof.
  intros He. destruct d as [|d|d]; cbn [binary_normalize].
  - reflexivity.
  - destruct (binary_round_sign false d e He) as [(m' & e' & ->)| ->];
      reflexivity.
  - destruct (binary_round_sign true d e He) as [(m' & e' & ->)| ->];
      reflexivity.
Qed.

Lemma iter_xO_value (m d : positive) :
  Z.pos (Pos.iter xO m d) = Z.pos m * 2 ^ Z.pos d.
Proof.
  change (Pos.iter xO m d) with (shift_pos d m).
  rewrite shift_pos_correct. unfold Z.pow. rewrite Zpower_pos_nat.
  rewrite <- Zpower_pos_nat. lia.
Qed.

Lemma shl_align_value (mx : positive) (ex ez : Z) :
  ez <= ex -> Z.pos (fst (shl_align mx ex ez)) = Z.pos mx * 2 ^ (ex - ez).
Proof.
  intros H. unfold shl_align.
  destruct (ez - ex) as [|d|d] eqn:E; cbn [fst]; try lia.
  - replace (ex - ez) with 0 by lia. lia.
  - rewrite iter_xO_value. do 2 f_equal. lia.
Qed.

(** The mantissa and exponent of a double. *)
Lemma bounded_inv (m : positive) (e : Z) :
  bounded 53 1024 m e = true ->
  -1074 <= e /\ Z.pos m < 2 ^ 53 /\ (-1074 < e -> 2 ^ 52 <= Z.pos m).
Proof.
  unfold bounded, canonical_mantissa, fexp, emin. intros H.
  apply andb_true_iff in H as [H _]. apply Z.eqb_eq in H.
  pose proof (digits2_pos_bounds m) as [Hlow Hhigh].
  split; [lia|]. split.
  - apply Z.lt_le_trans with (2 ^ Z.pos (digits2_pos m)); [exact Hhigh|].
    apply Z.pow_le_mono_r; lia.
  - intros He. replace (Z.pos (digits2_pos m)) with 53 in Hlow by lia.
    exact Hlow.
Qed.

(** The difference of two doubles is non-negative exactly when the
    second is not above the first. *)
Lemma float_sub_sign (x y : float) :
  is_double x = true -> is_double y = true ->
  float_le float_zero (float_sub x y) = float_le y x.
Proof.
  destruct x as [sx|sx| |sx mx ex], y as [sy|sy| |sy my ey];
    cbn [is_double]; try discriminate; intros Hx Hy.
  - destruct sx, sy; reflexivity.
  - destruct sy; reflexivity.
  - destruct sx; reflexivity.
  - apply bounded_inv in Hx as (Hex & Hmx & Hnx).
    apply bounded_inv in Hy as (Hey & Hmy & Hny).
    unfold float_sub, SFsub. rewrite binary_normalize_sign by lia.
    rewrite !shl_align_value by lia.
    unfold float_le, SFleb, SFcompare.
    change (Pos.compare_cont Eq my mx) with (Pos.compare my mx).
    destruct (Z.compare_spec ey ex) as [E|E|E].
    + subst ey. rewrite Z.min_id, Z.sub_diag, Z.pow_0_r, !Z.mul_1_r.
      destruct (Pos.compare_spec my mx) as [E|E|E];
        destruct sx, sy; cbn [cond_Zopp CompOpp];
        first [apply Z.leb_le; lia | apply Z.leb_gt; lia].
    + rewrite Z.min_r by lia. rewrite Z.sub_diag, Z.pow_0_r, Z.mul_1_r.
      assert (HP : 2 ^ 1 <= 2 ^ (ex - ey)) by (apply Z.pow_le_mono_r; lia).
      rewrite Z.pow_1_r in HP.
      destruct sx, sy; cbn [cond_Zopp CompOpp];
        first [apply Z.leb_le; nia | apply Z.leb_gt; nia].
    + rewrite Z.min_l by lia. rewrite Z.sub_diag, Z.pow_0_r, Z.mul_1_r.
      assert (HP : 2 ^ 1 <= 2 ^ (ey - ex)) by (apply Z.pow_le_mono_r; lia).
      rewrite Z.pow_1_r in HP.
      destruct sx, sy; cbn [cond_Zopp CompOpp];
        first [apply Z.leb_le; nia | apply Z.leb_gt; nia].
Qed.

(** C7 (as stated, refuted): on a host none of whose ports answers,
    (1) when the wall clock is set back between the two readings of
    [time.time()], the scan returns the empty list and no info with an
    elapsed time below zero; (2) when [socket.socket] fails for the
    probe of port 19500, the scan returns nothing at all:
    [UnboundLocalError] leaves [scan_server]. *)
Lemma scan_server_negative_elapsed_or_raise :
  (forall p, pong_received (probe_net stepped_back_env p) = false)
  /\ (exists r,
        outcome (scan_server stepped_back_env "play.example.net") boot
        = Ok r
        /\ sr_active_ports r = []
        /\ sr_server_info r = None
        /\ float_lt (sr_scan_time r) float_zero = true)
  /\ (forall p, pong_received (probe_net starved_silent_env p) = false)
  /\ outcome (scan_server starved_silent_env "play.example.net") boot
     = Raise UnboundLocalError.
Proof.
  split; [intros p; reflexivity|]. split.
  - eexists. split; [vm_compute; reflexivity|].
    repeat split; vm_compute; reflexivity.
  - split; [|vm_compute; reflexivity].
    intros p. cbn [probe_net starved_silent_env].
    destruct (p =? 19500); reflexivity.
Qed.

(** C7 (amended): when every probe of the range obtained its socket
    and none of them received a pong, the scan hands [format_results]
    the host, the empty list and no server info; the only sockets it
    touched are those of the probes, so no status request was made.
    The elapsed time is the float difference of the two readings of
    [time.time()]: it is [>= 0] exactly when the second reading is not
    below the first. More generally, when every socket asked for can be
    opened the scan returns a result, whether or not a port answered or
    a status could be decoded. *)
Theorem scan_server_no_responsive_port (port_range : Z * Z)
    (env : environment) (host : string) (s : state) :
  (forall p, In p (ports_of port_range) ->
     socket_error (probe_net env p) = None) ->
  ((forall p, In p (ports_of port_range) ->
      pong_received (probe_net env p) = false) ->
   exists r,
     outcome (scan_server_in port_range env host) s = Ok r
     /\ sr_host r = host
     /\ sr_active_ports r = []
     /\ sr_server_info r = None
     /\ sr_scan_time r = float_sub (end_clock env) (start_clock env)
     /\ (is_double (start_clock env) = true ->
         is_double (end_clock env) = true ->
         float_le float_zero (sr_scan_time r)
         = float_le (start_clock env) (end_clock env))
     /\ log_after (scan_server_in port_range env host) s
        = log s ++ probe_events (probe_net env) host (ports_of port_range))
  /\ ((forall p, socket_error (status_net env p) = None) ->
      exists r,
        outcome (scan_server_in port_range env host) s = Ok r
        /\ (sr_active_ports r = [] -> sr_server_info r = None)).
Proof.
  intros Hprobe.
  set (finished := filter (mem (ports_of port_range)) (completion env)).
  assert (Hfin : forall p, In p finished -> In p (ports_of port_range)).
  { intros p Hp. apply filter_In in Hp as [_ Hp]. now apply mem_true_iff. }
  assert (Hgranted :
            existsb (fun p => socket_denied (probe_net env p)) finished
            = false).
  { apply no_socket_denied. intros p Hp. apply Hprobe, Hfin, Hp. }
  split.
  - intros Hsilent. unfold outcome, log_after. rewrite scan_server_in_run.
    fold finished. rewrite Hgranted.
    rewrite filter_none by (intros p Hp; apply Hsilent, Hfin, Hp).
    eexists. cbn [fst snd log sr_scan_time]. repeat split.
    intros Hstart Hend. now apply float_sub_sign.
  - intros Hstatus. unfold outcome. rewrite scan_server_in_run.
    fold finished. rewrite Hgranted.
    destruct (filter _ finished) as [|p0 rest].
    + eexists. cbn [snd]. split; reflexivity.
    + cbn [snd]. unfold status_outcome, socket_denied. rewrite Hstatus.
      eexists. split; [reflexivity|]. cbn. discriminate.
Qed.

Lemma scan_server_no_responsive_port_witness :
  (exists r,
      outcome (scan_server_in PORT_RANGE silent_env "play.example.net") boot
      = Ok r
      /\ sr_active_ports r = []
      /\ sr_server_info r = None
      /\ float_le float_zero (sr_scan_time r) = true)
  /\ (exists r,
        outcome (scan_server_in (19130, 19132) lone_server_env
                   "play.example.net") boot = Ok r).
Proof.
  split.
  - destruct (scan_server_no_responsive_port PORT_RANGE silent_env
                "play.example.net" boot) as [HA _].
    + intros p _. reflexivity.
    + destruct HA as (r & Hrun & _ & Hact & Hinfo & _ & Hsign & _).
      * intros p _. reflexivity.
      * exists r. repeat split; try assumption.
        rewrite Hsign by (vm_compute; reflexivity).
        vm_compute. reflexivity.
  - destruct (scan_server_no_responsive_port (19130, 19132) lone_server_env
                "play.example.net" boot) as [_ HB].
    + intros p _. cbn [probe_net lone_server_env]. unfold lone_server_net.
      destruct (p =? 19131); reflexivity.
    + destruct HB as (r & Hrun & _).
      * intros p. cbn [status_net lone_server_env]. unfold lone_server_net.
        destruct (p =? 19131); reflexivity.
      * exists r. exact Hrun.
Defined.

(** A silent host: the empty list, no info, nine seconds, and no status
    request although one would have failed. *)
Example scan_server_silent_host :
  outcome (scan_server silent_env "play.example.net") boot
  = Ok {| sr_host := "play.example.net";
          sr_active_ports := [];
          sr_server_info := None;
          sr_scan_time := float_of_dyadic 9 0 |}.
Proof. vm_compute. reflexivity. Qed.

(** The scenario of the three ports: only 19131 answers. *)
Example scan_server_lone_server :
  exists r,
    outcome (scan_server_in (19130, 19132) lone_server_env
               "play.example.net") boot = Ok r
    /\ sr_active_ports r = [19131]
    /\ option_map server_name (sr_server_info r) = Some (text "Survival World")
    /\ option_map players (sr_server_info r) = Some (text "3")
    /\ option_map max_players (sr_server_info r) = Some (text "10").
Proof.
  eexists. split; [vm_compute; reflexivity|].
  repeat split; vm_compute; reflexivity.
Qed.

(** When [socket.socket] fails for a single probe, the whole scan is
    lost: the error stored in that probe's future is raised by
    [await] and nothing in [scan_ports] or [scan_server] catches it. *)
Example scan_server_one_socket_denied :
  outcome
    (scan_server
       (mkEnvironment (sample_time 0)
          (fun p => if p =? 19500 then exhausted_world else lone_server_net p)
          (ports_of PORT_RANGE) (sample_time 8) lone_server_net)
       "play.example.net") boot
  = Raise UnboundLocalError.
Proof. vm_compute. reflexivity. Qed.

(* ================================================================== *)
(** * Further properties of the scanner                                *)
(* ================================================================== *)

(** ** Sockets are released *)

Lemma request_events_bracket (w : world) (t : Q) (host : string) (p : Z) :
  request_events w t host p = [] \/ socket_bracket (request_events w t host p).
Proof.
  unfold request_events, socket_bracket.
  destruct (socket_error w); [now left|]. right.
  destruct (clock_fits w); [destruct (sendto_error w)|].
  - exists [EvSetTimeout t]. split; [reflexivity|].
    split; intros [H|[]]; discriminate.
  - exists [EvSetTimeout t;
            EvSendto (probe_packet (int_of_float (clock w))) host p].
    split; [reflexivity|].
    split; intros [H|[H|[]]]; discriminate.
  - exists [EvSetTimeout t]. split; [reflexivity|].
    split; intros [H|[]]; discriminate.
Qed.

(** X1: on every path through [check_bedrock_port] and
    [get_server_info] (reply, timeout, send error, unpackable timestamp)
    the call either touches no socket at all, which is the case where
    [socket.socket] failed, or opens exactly one socket before anything
    else and releases it as its last action. *)
Theorem socket_opened_once_released_last (w : world) (host : string) (p : Z)
    (s : state) :
  (exists evs,
      log_after (check_bedrock_port w host p) s = log s ++ evs
      /\ (evs = [] /\ socket_denied w = true
          \/ socket_bracket evs /\ socket_denied w = false))
  /\ (exists evs,
      log_after (get_server_info w host p) s = log s ++ evs
      /\ (evs = [] /\ socket_denied w = true
          \/ socket_bracket evs /\ socket_denied w = false)).
Proof.
  assert (H : forall t,
             request_events w t host p = [] /\ socket_denied w = true
             \/ socket_bracket (request_events w t host p)
                /\ socket_denied w = false).
  { intros t. destruct (request_events_bracket w t host p) as [E|B].
    - left. split; [exact E|].
      unfold request_events, socket_denied in *.
      destruct (socket_error w); [reflexivity | discriminate].
    - right. split; [exact B|].
      unfold request_events, socket_denied in *.
      destruct (socket_error w); [|reflexivity].
      destruct B as (mid & E & _). discriminate. }
  split.
  - exists (request_events w SCAN_TIMEOUT host p). split; [|apply H].
    unfold log_after. now rewrite check_bedrock_port_run.
  - exists (request_events w 2 host p). split; [|apply H].
    unfold log_after. now rewrite get_server_info_run.
Qed.

(** ** What a scan puts on the wire *)

Lemma request_events_sendto_count (w : world) (t : Q) (host : string)
    (p q : Z) :
  (length (filter (is_sendto_port q) (request_events w t host p)) <= 1)%nat
  /\ (q <> p ->
      filter (is_sendto_port q) (request_events w t host p) = []).
Proof.
  unfold request_events.
  destruct (socket_error w); [cbn; split; [lia | reflexivity]|].
  destruct (clock_fits w); [destruct (sendto_error w)|];
    cbn [app filter is_sendto_port length];
    try (split; [lia | reflexivity]).
  destruct (p =? q) eqn:E; cbn [length]; split; try lia; try reflexivity.
Qed.

Lemma request_events_socket_count (w : world) (t : Q) (host : string)
    (p : Z) :
  (length (filter is_socket (request_events w t host p)) <= 1)%nat.
Proof.
  unfold request_events.
  destruct (socket_error w); [cbn; lia|].
  destruct (clock_fits w); [destruct (sendto_error w)|]; cbn; lia.
Qed.

Lemma probe_events_sendto_count (net : Z -> world) (host : string)
    (ports : list Z) (q : Z) :
  NoDup ports ->
  (length (filter (is_sendto_port q) (probe_events net host ports)) <= 1)%nat.
Proof.
  unfold probe_events.
  induction 1 as [|p ports Hnotin _ IH]; [cbn; lia|].
  cbn [flat_map]. rewrite filter_app, length_app.
  destruct (request_events_sendto_count (net p) SCAN_TIMEOUT host p q)
    as [Hle Hzero].
  destruct (Z.eq_dec q p) as [->|Hne].
  - assert (Hrest : filter (is_sendto_port p)
                      (flat_map (fun p0 => request_events (net p0)
                                             SCAN_TIMEOUT host p0) ports)
                    = []).
    { clear IH Hle Hzero. induction ports as [|a ports IH]; [reflexivity|].
      cbn [flat_map]. rewrite filter_app.
      destruct (request_events_sendto_count (net a) SCAN_TIMEOUT host a p)
        as [_ Hz].
      rewrite Hz by (intros ->; apply Hnotin; now left).
      apply IH. intros H. apply Hnotin. now right. }
    rewrite Hrest. cbn [length]. lia.
  - rewrite (Hzero Hne). cbn [length]. exact IH.
Qed.

Lemma probe_events_socket_count (net : Z -> world) (host : string)
    (ports : list Z) :
  (length (filter is_socket (probe_events net host ports))
   <= length ports)%nat.
Proof.
  unfold probe_events. induction ports as [|p ports IH]; [cbn; lia|].
  cbn [flat_map length]. rewrite filter_app, length_app.
  pose proof (request_events_socket_count (net p) SCAN_TIMEOUT host p).
  lia.
Qed.

(** X2: whatever the network does and in whatever order the probes
    finish, [scan_ports] sends datagrams only to the host asked and to
    ports of [PORT_RANGE], at most one per port, each a well-formed
    probe, and opens at most one socket per port of the range. *)
Theorem scan_ports_probes_each_port_once (port_range : Z * Z)
    (net : Z -> world) (order : list Z) (host : string) (s : state) :
  exists evs,
    log_after (scan_ports_in port_range net order host) s = log s ++ evs
    /\ (forall packet h q, In (EvSendto packet h q) evs ->
          h = host /\ fst port_range <= q <= snd port_range
          /\ well_formed_probe (int_of_float (clock (net q))) packet)
    /\ (forall q, (length (filter (is_sendto_port q) evs) <= 1)%nat)
    /\ (length (filter is_socket evs) <= length (ports_of port_range))%nat.
Proof.
  exists (probe_events net host (ports_of port_range)).
  split; [|split; [|split]].
  - unfold log_after. now rewrite scan_ports_in_run.
  - intros packet h q Hin.
    apply probe_events_sendto in Hin as (Hq & -> & Hwf).
    apply in_ports_of in Hq. auto.
  - intros q. apply probe_events_sendto_count, NoDup_py_range.
  - apply probe_events_socket_count.
Qed.

(** ** A clock the timestamp field cannot hold *)

Lemma int_of_float_nonneg (x : Q) : 0 <= int_of_float x <-> (-1 < x)%Q.
Proof.
  destruct x as [a b]. unfold int_of_float, Qlt. cbn [Qnum Qden].
  rewrite Z.mul_1_r.
  assert (Hb : 0 < Z.pos b) by lia.
  destruct (Z_lt_le_dec a 0) as [Hneg|Hpos].
  - rewrite <- (Z.opp_involutive a) at 1.
    rewrite Z.quot_opp_l by lia.
    rewrite Z.quot_div_nonneg by lia.
    split; intros H.
    + assert (Hz : - a / Z.pos b = 0)
        by (pose proof (Z.div_pos (- a) (Z.pos b)); lia).
      apply Z.div_small_iff in Hz; lia.
    + rewrite Z.div_small by lia. lia.
  - rewrite Z.quot_div_nonneg by lia.
    pose proof (Z.div_pos a (Z.pos b)). split; intros; lia.
Qed.

Lemma int_of_float_below (x : Q) (n : Z) :
  0 < n -> (int_of_float x < n <-> (x < inject_Z n)%Q).
Proof.
  intros Hn. destruct x as [a b]. unfold int_of_float, Qlt, inject_Z.
  cbn [Qnum Qden]. rewrite Z.mul_1_r.
  assert (Hb : 0 < Z.pos b) by lia.
  destruct (Z_lt_le_dec a 0) as [Hneg|Hpos].
  - rewrite <- (Z.opp_involutive a) at 1.
    rewrite Z.quot_opp_l by lia.
    rewrite Z.quot_div_nonneg by lia.
    pose proof (Z.div_pos (- a) (Z.pos b)). split; intros; nia.
  - rewrite Z.quot_div_nonneg by lia. split; intros H.
    + destruct (Z_lt_le_dec a (n * Z.pos b)) as [Hlt|Hge]; [exact Hlt|].
      assert (n <= a / Z.pos b) by (apply Z.div_le_lower_bound; lia). lia.
    + apply Z.div_lt_upper_bound; lia.
Qed.

(** X3: the timestamp field holds [int(time.time())] exactly when the
    clock reads more than -1 and less than 2^64 seconds. Outside that
    window [struct.pack] raises inside the [try] block, so the probe
    opens and releases its socket, sends nothing and reports the port
    closed, whatever the port would have answered. *)
Theorem unpackable_clock_means_closed (w : world) (host : string) (p : Z)
    (s : state) :
  socket_error w = None ->
  (clock w <= -1 \/ inject_Z (2 ^ 64) <= clock w)%Q ->
  outcome (check_bedrock_port w host p) s = Ok (p, false)
  /\ log_after (check_bedrock_port w host p) s
     = log s ++ [EvSocket; EvSetTimeout SCAN_TIMEOUT; EvClose].
Proof.
  intros Hs Hclock.
  assert (Hfit : clock_fits w = false).
  { unfold clock_fits. apply andb_false_iff.
    destruct Hclock as [H|H]; [left|right].
    - apply Z.leb_gt. rewrite Z.lt_nge, int_of_float_nonneg.
      now apply Qle_not_lt.
    - apply Z.ltb_ge. rewrite Z.le_ngt, int_of_float_below by lia.
      now apply Qle_not_lt. }
  split.
  - apply exception_means_closed; auto.
  - unfold log_after. rewrite check_bedrock_port_run. cbn [fst log].
    unfold request_events. now rewrite Hs, Hfit.
Qed.

Lemma unpackable_clock_means_closed_witness :
  outcome
    (check_bedrock_port (mkWorld None (-5) None (Datagram pong_reply))
       "play.example.net" 19131) boot
  = Ok (19131, false).
Proof.
  apply (unpackable_clock_means_closed
           (mkWorld None (-5) None (Datagram pong_reply))
           "play.example.net" 19131 boot).
  - reflexivity.
  - left. vm_compute. discriminate.
Defined.

(** ** Splitting the payload *)

Lemma byte_eqb_eq (a b : byte) : Byte.eqb a b = true <-> a = b.
Proof. split; [apply Byte.byte_dec_bl | apply Byte.byte_dec_lb]. Qed.

Lemma split_not_nil (sep : byte) (bs : bytes) : split sep bs <> [].
Proof.
  destruct bs as [|b bs]; cbn; [discriminate|].
  destruct (Byte.eqb b sep); [discriminate|].
  destruct (split sep bs); discriminate.
Qed.

Lemma split_length (sep : byte) (bs : bytes) :
  length (split sep bs) = S (count_occ Byte.byte_eq_dec bs sep).
Proof.
  induction bs as [|b bs IH]; [reflexivity|].
  cbn [split count_occ].
  destruct (Byte.eqb b sep) eqn:E.
  - apply byte_eqb_eq in E. subst.
    destruct (Byte.byte_eq_dec sep sep); [|contradiction].
    cbn [length]. now rewrite IH.
  - destruct (Byte.byte_eq_dec b sep) as [->|_].
    + rewrite (proj2 (byte_eqb_eq sep sep) eq_refl) in E. discriminate.
    + pose proof (split_not_nil sep bs).
      destruct (split sep bs); [contradiction | exact IH].
Qed.

Lemma split_join (sep : byte) (bs : bytes) : join [sep] (split sep bs) = bs.
Proof.
  induction bs as [|b bs IH]; [reflexivity|].
  cbn [split]. pose proof (split_not_nil sep bs) as Hne.
  destruct (Byte.eqb b sep) eqn:E.
  - apply byte_eqb_eq in E. subst.
    destruct (split sep bs) as [|f fs]; [contradiction|].
    rewrite <- IH. reflexivity.
  - destruct (split sep bs) as [|f [|g fs]]; [contradiction| |];
      rewrite <- IH; reflexivity.
Qed.

Lemma split_no_sep (sep : byte) (bs : bytes) :
  Forall (fun field => ~ In sep field) (split sep bs).
Proof.
  induction bs as [|b bs IH]; [repeat constructor; auto|].
  cbn [split]. destruct (Byte.eqb b sep) eqn:E.
  - constructor; [intros [] | exact IH].
  - destruct (split sep bs) as [|f fs]; [repeat constructor|].
    + intros [->|[]].
      rewrite (proj2 (byte_eqb_eq sep sep) eq_refl) in E. discriminate.
    + inversion IH as [|? ? Hf Hfs]; subst. constructor; [|exact Hfs].
      intros [->|H]; [|contradiction].
      rewrite (proj2 (byte_eqb_eq sep sep) eq_refl) in E. discriminate.
Qed.

(** X4: [data[33:].split(b';')] loses nothing and invents nothing:
    joining the fields with [;] gives the payload back, no field holds a
    [;], and there is one field more than there are [;] bytes. In
    particular a reply that starts with [0x1C] yields a record exactly
    when at least nine [;] bytes follow offset 33. *)
Theorem status_record_iff_nine_separators (w : world) (host : string)
    (p : Z) (s : state) (data : bytes) :
  received w 2048 = Some data ->
  let payload := skipn 33 data in
  join [SEMICOLON] (split SEMICOLON payload) = payload
  /\ Forall (fun field => ~ In SEMICOLON field) (split SEMICOLON payload)
  /\ length (split SEMICOLON payload)
     = S (count_occ Byte.byte_eq_dec payload SEMICOLON)
  /\ ((exists info, outcome (get_server_info w host p) s = Ok (Some info))
      <-> starts_with_pong data = true
          /\ (9 <= count_occ Byte.byte_eq_dec payload SEMICOLON)%nat).
Proof.
  intros Hrecv payload.
  split; [apply split_join|]. split; [apply split_no_sep|].
  split; [apply split_length|].
  assert (Hsock : socket_error w = None).
  { unfold received in Hrecv. now destruct (socket_error w). }
  rewrite get_server_info_with_socket, Hrecv by exact Hsock.
  unfold parse_status. fold payload.
  pose proof (split_length SEMICOLON payload) as Hlen.
  destruct (starts_with_pong data).
  2:{ split; [intros (info & H); discriminate | intros [H _]; discriminate]. }
  destruct (split SEMICOLON payload)
    as [|f0 [|f1 [|f2 [|f3 [|f4 [|f5 [|f6 [|f7 [|f8 [|f9 rest]]]]]]]]]];
    cbn [length] in Hlen;
    (split; [intros (info & H);
             first [discriminate | split; [reflexivity | lia]]
            | intros [_ H]; first [lia | eauto]]).
Qed.

Lemma status_record_iff_nine_separators_witness :
  (exists info,
      outcome (get_server_info ten_field_world "play.example.net" 19131) boot
      = Ok (Some info))
  <-> starts_with_pong ten_field_reply = true
      /\ (9 <= count_occ Byte.byte_eq_dec (skipn 33 ten_field_reply)
                 SEMICOLON)%nat.
Proof.
  apply (status_record_iff_nine_separators ten_field_world
           "play.example.net" 19131 boot ten_field_reply).
  reflexivity.
Defined.

(** ** What decoded text can contain *)

Lemma utf8_encode_cp_length (c : Z) (bs : bytes) :
  utf8_encode_cp c = Some bs -> (1 <= length bs)%nat.
Proof.
  unfold utf8_encode_cp.
  repeat match goal with
         | |- context [if ?b then _ else _] => destruct b
         end; intros H; try discriminate; injection H as <-; cbn; lia.
Qed.

Lemma utf8_encode_length (s : str) (bs : bytes) :
  utf8_encode s = Some bs -> (length s <= length bs)%nat.
Proof.
  revert bs. induction s as [|c s IH]; intros bs H; cbn in *.
  - lia.
  - destruct (utf8_encode_cp c) as [b1|] eqn:E1; [|discriminate].
    destruct (utf8_encode s) as [rest|]; [|discriminate].
    injection H as <-. rewrite length_app.
    apply utf8_encode_cp_length in E1. specialize (IH rest eq_refl). lia.
Qed.

Lemma utf8_encode_ascii_in (c : Z) (s : str) (bs : bytes) :
  0 <= c < 0x80 -> utf8_encode s = Some bs -> In c s -> In (byte_of_Z c) bs.
Proof.
  intros Hc. revert bs. induction s as [|c' s IH]; intros bs H Hin.
  - destruct Hin.
  - cbn in H.
    destruct (utf8_encode_cp c') as [b1|] eqn:E1; [|discriminate].
    destruct (utf8_encode s) as [rest|]; [|discriminate].
    injection H as <-. apply in_or_app.
    destruct Hin as [->|Hin].
    + left. rewrite encode_cp_1 in E1 by lia. injection E1 as <-. now left.
    + right. now apply IH.
Qed.

(** An ASCII character of the text was a byte of the field. *)
Lemma decoded_text_ascii_in (c : Z) (byte_str : bytes) :
  0 <= c < 0x80 -> In c (decoded_text byte_str) -> In (byte_of_Z c) byte_str.
Proof.
  intros Hc. unfold decoded_text.
  destruct (utf8_decode byte_str) as [v|] eqn:E.
  - apply utf8_decode_encode in E. now apply utf8_encode_ascii_in.
  - rewrite latin1_decode_ignore_map, in_map_iff.
    intros (b & <- & Hb). now rewrite byte_of_Z_val.
Qed.

Lemma utf8_encode_small (s : str) :
  Forall (fun c => 0 <= c < 0x800) s -> exists bs, utf8_encode s = Some bs.
Proof.
  induction 1 as [|c s Hc _ (rest & IH)]; [now exists []|].
  cbn [utf8_encode]. rewrite IH.
  unfold utf8_encode_cp.
  replace (c <? 0) with false by (symmetry; apply Z.ltb_ge; lia).
  destruct (c <? 0x80); [eauto|].
  replace (c <? 0x800) with true by (symmetry; apply Z.ltb_lt; lia).
  eauto.
Qed.

Lemma decoded_text_encodable (byte_str : bytes) :
  exists bs, utf8_encode (decoded_text byte_str) = Some bs.
Proof.
  unfold decoded_text. destruct (utf8_decode byte_str) as [v|] eqn:E.
  - exists byte_str. now apply utf8_decode_encode.
  - apply utf8_encode_small. rewrite latin1_decode_ignore_map.
    apply Forall_forall. intros c Hc. apply in_map_iff in Hc as (b & <- & _).
    pose proof (byte_val_range b). lia.
Qed.

Lemma decoded_text_length (byte_str : bytes) :
  (length (decoded_text byte_str) <= length byte_str)%nat.
Proof.
  unfold decoded_text. destruct (utf8_decode byte_str) as [v|] eqn:E.
  - apply utf8_decode_encode in E. now apply utf8_encode_length.
  - now rewrite latin1_decode_ignore_length.
Qed.

(** X5: the text [safe_decode] returns is never longer than the field,
    can always be encoded as UTF-8 again (it holds no surrogate and
    nothing beyond U+10FFFF), owes each of its ASCII characters to a
    byte of the field, and is the field itself, character for byte,
    when the field is pure ASCII. *)
Theorem safe_decode_text_bounds (byte_str : bytes) (s : state) :
  exists txt,
    outcome (safe_decode byte_str) s = Ok txt
    /\ (length txt <= length byte_str)%nat
    /\ (exists bs, utf8_encode txt = Some bs)
    /\ (forall c, 0 <= c < 0x80 -> In c txt -> In (byte_of_Z c) byte_str)
    /\ (Forall (fun b => byte_val b < 0x80) byte_str ->
        txt = map byte_val byte_str).
Proof.
  exists (decoded_text byte_str). unfold outcome. rewrite safe_decode_run.
  split; [reflexivity|]. split; [apply decoded_text_length|].
  split; [apply decoded_text_encodable|].
  split; [intros c; apply decoded_text_ascii_in|].
  intros Hascii. unfold decoded_text.
  now rewrite (utf8_decode_ascii _ Hascii).
Qed.

Lemma safe_decode_text_bounds_witness :
  exists txt,
    outcome (safe_decode (list_byte_of_string "Survival World")) boot = Ok txt
    /\ txt = text "Survival World".
Proof.
  destruct (safe_decode_text_bounds (list_byte_of_string "Survival World")
              boot) as (txt & Hrun & _ & _ & _ & Hascii).
  exists txt. split; [exact Hrun|]. apply Hascii.
  repeat constructor.
Defined.

(** ** What the status record depends on *)

Lemma parse_status_some (p : Z) (data : bytes) (info : ServerInfo) :
  parse_status p data = Some info ->
  starts_with_pong data = true
  /\ (10 <= length (split SEMICOLON (skipn 33 data)))%nat
  /\ text_fields info
     = map decoded_text (firstn 9 (split SEMICOLON (skipn 33 data)))
  /\ port info = p.
Proof.
  unfold parse_status. destruct (starts_with_pong data); [|discriminate].
  destruct (split SEMICOLON (skipn 33 data))
    as [|f0 [|f1 [|f2 [|f3 [|f4 [|f5 [|f6 [|f7 [|f8 [|f9 rest]]]]]]]]]];
    try discriminate.
  intros H. injection H as <-. cbn [length]. repeat split. lia.
Qed.

Lemma get_server_info_some (w : world) (host : string) (p : Z) (s : state)
    (info : ServerInfo) :
  outcome (get_server_info w host p) s = Ok (Some info) ->
  exists data, received w 2048 = Some data /\ parse_status p data = Some info.
Proof.
  unfold outcome. rewrite get_server_info_run. cbn [snd].
  unfold status_outcome. destruct (socket_denied w); [discriminate|].
  destruct (received w 2048) as [data|]; [|discriminate].
  intros H. injection H as H. eauto.
Qed.

(** X6: no text field of a record [get_server_info] returns holds a
    [;], and every one of them can be encoded as UTF-8 again, whatever
    bytes the server sent. *)
Theorem status_fields_hold_no_separator (w : world) (host : string) (p : Z)
    (s : state) (info : ServerInfo) :
  outcome (get_server_info w host p) s = Ok (Some info) ->
  Forall (fun txt => ~ In 59 txt /\ exists bs, utf8_encode txt = Some bs)
         (text_fields info).
Proof.
  intros H. apply get_server_info_some in H as (data & _ & H).
  apply parse_status_some in H as (_ & _ & -> & _).
  apply Forall_forall. intros txt Hin.
  apply in_map_iff in Hin as (tok & <- & Htok).
  split; [|apply decoded_text_encodable].
  intros H59. apply (decoded_text_ascii_in 59) in H59; [|lia].
  change (byte_of_Z 59) with SEMICOLON in H59.
  pose proof (split_no_sep SEMICOLON (skipn 33 data)) as Hsep.
  rewrite Forall_forall in Hsep.
  apply (Hsep tok); [|exact H59].
  rewrite <- (firstn_skipn 9 (split SEMICOLON (skipn 33 data))).
  apply in_or_app. now left.
Qed.

Lemma status_fields_hold_no_separator_witness :
  Forall (fun txt => ~ In 59 txt /\ exists bs, utf8_encode txt = Some bs)
    [text "MCPE"; text "My Server"; text "422"; text "1.19"; text "3";
     text "10"; text "GUID1"; text "Survival World"; text "Survival"].
Proof.
  apply (status_fields_hold_no_separator ten_field_world "play.example.net"
           19131 boot
           {| edition := text "MCPE"; motd := text "My Server";
              protocol := text "422"; version := text "1.19";
              players := text "3"; max_players := text "10";
              server_id := text "GUID1"; server_name := text "Survival World";
              gamemode := text "Survival"; port := 19131 |}).
  vm_compute. reflexivity.
Defined.

(** X7: the record depends on nothing but the first nine fields and the
    port asked: two replies that both start with [0x1C] and have at
    least ten fields, the first nine of them equal, give the same
    record, whatever their 32 header bytes, their later fields, the
    clocks and the hosts. *)
Theorem status_depends_on_nine_fields (w w' : world) (host host' : string)
    (p : Z) (s s' : state) (data data' : bytes) :
  received w 2048 = Some data ->
  received w' 2048 = Some data' ->
  starts_with_pong data = true ->
  starts_with_pong data' = true ->
  (10 <= length (split SEMICOLON (skipn 33 data)))%nat ->
  (10 <= length (split SEMICOLON (skipn 33 data')))%nat ->
  firstn 9 (split SEMICOLON (skipn 33 data))
  = firstn 9 (split SEMICOLON (skipn 33 data')) ->
  outcome (get_server_info w host p) s
  = outcome (get_server_info w' host' p) s'
  /\ exists info, outcome (get_server_info w host p) s = Ok (Some info).
Proof.
  intros Hr Hr' Hp Hp' Hl Hl' Hnine.
  assert (Hs : socket_error w = None)
    by (unfold received in Hr; now destruct (socket_error w)).
  assert (Hs' : socket_error w' = None)
    by (unfold received in Hr'; now destruct (socket_error w')).
  rewrite !get_server_info_with_socket, Hr, Hr' by assumption.
  unfold parse_status. rewrite Hp, Hp'.
  destruct (split SEMICOLON (skipn 33 data))
    as [|f0 [|f1 [|f2 [|f3 [|f4 [|f5 [|f6 [|f7 [|f8 [|f9 rest]]]]]]]]]];
    cbn [length] in Hl; try lia.
  destruct (split SEMICOLON (skipn 33 data'))
    as [|g0 [|g1 [|g2 [|g3 [|g4 [|g5 [|g6 [|g7 [|g8 [|g9 rest']]]]]]]]]];
    cbn [length] in Hl'; try lia.
  cbn [firstn] in Hnine.
  injection Hnine as -> -> -> -> -> -> -> -> ->.
  split; [reflexivity | eauto].
Qed.

Lemma status_depends_on_nine_fields_witness :
  outcome (get_server_info pong_world "play.example.net" 19131) boot
  = outcome (get_server_info ten_field_world "mc.example.com" 19131) boot.
Proof.
  apply (status_depends_on_nine_fields pong_world ten_field_world
           "play.example.net" "mc.example.com" 19131 boot boot
           pong_reply ten_field_reply).
  - reflexivity.
  - reflexivity.
  - reflexivity.
  - reflexivity.
  - vm_compute. repeat constructor.
  - vm_compute. repeat constructor.
  - vm_compute. reflexivity.
Defined.

(** ** Which port the status describes *)

(** X8: whenever [scan_server] reaches [format_results], the server
    info is [None] if no port was found, and otherwise it is what the
    status request to the first port of the list, which is the first
    open port whose probe completed, returned: a record it carries
    names that very port. *)
Theorem status_describes_first_active_port (port_range : Z * Z)
    (env : environment) (host : string) (s : state) (r : ScanResult) :
  outcome (scan_server_in port_range env host) s = Ok r ->
  match sr_active_ports r with
  | [] => sr_server_info r = None
  | first_port :: _ =>
      outcome (get_server_info (status_net env first_port) host first_port) s
      = Ok (sr_server_info r)
      /\ forall info, sr_server_info r = Some info -> port info = first_port
  end.
Proof.
  unfold outcome. rewrite scan_server_in_run.
  destruct (existsb _ _); [discriminate|].
  destruct (filter _ _) as [|p0 rest] eqn:E; cbn [snd].
  - intros H. injection H as <-. reflexivity.
  - destruct (status_outcome (status_net env p0) p0) as [info|e] eqn:Es;
      [|discriminate].
    intros H. injection H as <-. cbn [sr_active_ports sr_server_info].
    rewrite get_server_info_run. cbn [snd].
    split; [exact Es|].
    intros i ->. unfold status_outcome in Es.
    destruct (socket_denied (status_net env p0)); [discriminate|].
    injection Es as Es.
    destruct (received (status_net env p0) 2048); [|discriminate].
    now apply parse_status_some in Es.
Qed.

Lemma status_describes_first_active_port_witness :
  exists r,
    outcome (scan_server_in PORT_RANGE descending_env "play.example.net") boot = Ok r
    /\ sr_active_ports r = [19131; 19130]
    /\ option_map port (sr_server_info r) = Some 19131.
Proof.
  assert (Hrun : exists r,
             outcome (scan_server_in PORT_RANGE descending_env "play.example.net") boot
             = Ok r /\ sr_active_ports r = [19131; 19130]
             /\ sr_server_info r <> None).
  { eexists. split; [vm_compute; reflexivity|].
    split; [reflexivity | discriminate]. }
  destruct Hrun as (r & Hrun & Hact & Hsome).
  exists r. split; [exact Hrun|]. split; [exact Hact|].
  pose proof (status_describes_first_active_port PORT_RANGE descending_env
                "play.example.net" boot r Hrun) as H.
  rewrite Hact in H. destruct H as [_ H].
  destruct (sr_server_info r) as [info|]; [|contradiction].
  cbn [option_map]. f_equal. now apply H.
Defined.

(** ** A scan returns all of its result or none *)

(** X9: for a completion order that yields each future once,
    [scan_ports] raises exactly when the OS refused a socket to the
    probe of some port of the range, and then raises
    [UnboundLocalError] whatever the other ports answered; otherwise it
    returns the list of all the ports that answered with a pong, as many
    as there are such ports in the range. *)
Theorem scan_ports_all_or_nothing (port_range : Z * Z) (net : Z -> world)
    (order : list Z) (host : string) (s : state) :
  Permutation order (ports_of port_range) ->
  let answered := fun p => pong_received (net p) in
  match outcome (scan_ports_in port_range net order host) s with
  | Ok active =>
      (forall p, In p (ports_of port_range) -> socket_denied (net p) = false)
      /\ (forall p, In p active <->
                    In p (ports_of port_range) /\ answered p = true)
      /\ length active = length (filter answered (ports_of port_range))
  | Raise e =>
      e = UnboundLocalError
      /\ exists p, In p (ports_of port_range) /\ socket_denied (net p) = true
  end.
Proof.
  intros HP answered. rewrite scan_ports_in_outcome by exact HP.
  destruct (existsb _ order) eqn:Hden.
  - split; [reflexivity|].
    apply some_socket_denied in Hden as (p & Hp & Hd).
    exists p. split; [eapply Permutation_in; eauto | exact Hd].
  - split; [|split].
    + intros p Hp. destruct (socket_denied (net p)) eqn:E; [|reflexivity].
      rewrite <- Hden. symmetry. apply existsb_exists. exists p.
      split; [|exact E].
      eapply Permutation_in; [apply Permutation_sym|]; eauto.
    + intros p. rewrite filter_In. split; intros [Hp Ha]; split; auto.
      * eapply Permutation_in; eauto.
      * eapply Permutation_in; [apply Permutation_sym|]; eauto.
    + apply Permutation_length. now apply Permutation_filter'.
Qed.

Lemma scan_ports_all_or_nothing_witness :
  match
    outcome (scan_ports_in PORT_RANGE
               (fun p => if p =? 19500 then exhausted_world
                         else two_servers_net p)
               (rev (ports_of PORT_RANGE)) "play.example.net") boot
  with
  | Ok _ => False
  | Raise e => e = UnboundLocalError
  end.
Proof.
  pose proof (scan_ports_all_or_nothing PORT_RANGE
                (fun p => if p =? 19500 then exhausted_world
                          else two_servers_net p)
                (rev (ports_of PORT_RANGE)) "play.example.net" boot
                (Permutation_sym (Permutation_rev (ports_of PORT_RANGE))))
    as H.
  cbv zeta in H.
  destruct (outcome _ boot) as [active|e].
  - destruct H as [H _]. specialize (H 19500).
    assert (Hin : In 19500 (ports_of PORT_RANGE))
      by (apply in_ports_of; cbn; lia).
    specialize (H Hin). cbn in H. discriminate H.
  - apply H.
Defined.

(* ================================================================== *)
(** * The rest of the bot                                              *)
(* ================================================================== *)

(** ** [escape_html] *)

Lemma lit_amp : lit "&amp;" = [38; 97; 109; 112; 59].
Proof. reflexivity. Qed.

Lemma lit_lt : lit "&lt;" = [38; 108; 116; 59].
Proof. reflexivity. Qed.

Lemma lit_gt : lit "&gt;" = [38; 103; 116; 59].
Proof. reflexivity. Qed.

Lemma str_replace_char_app (old : Z) (new a b : str) :
  str_replace_char old new (a ++ b)
  = str_replace_char old new a ++ str_replace_char old new b.
Proof.
  induction a as [|c a IH]; [reflexivity|].
  cbn [app str_replace_char]. rewrite IH.
  destruct (c =? old); [now rewrite app_assoc | reflexivity].
Qed.

(** The three replacements in a row amount to one pass that maps each
    character on its own. *)
Lemma replace_chain_charwise (s : str) :
  str_replace_char 62 (lit "&gt;")
    (str_replace_char 60 (lit "&lt;")
       (str_replace_char 38 (lit "&amp;") s))
  = flat_map escape_char s.
Proof.
  rewrite lit_amp, lit_lt, lit_gt.
  induction s as [|c s IH]; [reflexivity|].
  cbn [str_replace_char flat_map]. unfold escape_char at 1.
  rewrite lit_amp, lit_lt, lit_gt.
  destruct (c =? 38) eqn:E38.
  - rewrite !str_replace_char_app, IH. reflexivity.
  - cbn [str_replace_char]. destruct (c =? 60) eqn:E60.
    + rewrite !str_replace_char_app, IH. reflexivity.
    + cbn [str_replace_char]. destruct (c =? 62) eqn:E62.
      * now rewrite IH.
      * now rewrite IH.
Qed.

Lemma escape_html_charwise (s : str) :
  V1.escape_html s = flat_map escape_char s.
Proof.
  unfold V1.escape_html. destruct s as [|c s]; [reflexivity|].
  cbn [length Nat.eqb]. apply replace_chain_charwise.
Qed.

Lemma escape_char_cases (c : Z) :
  (c = 38 /\ escape_char c = [38; 97; 109; 112; 59])
  \/ (c = 60 /\ escape_char c = [38; 108; 116; 59])
  \/ (c = 62 /\ escape_char c = [38; 103; 116; 59])
  \/ (c <> 38 /\ c <> 60 /\ c <> 62 /\ escape_char c = [c]).
Proof.
  unfold escape_char.
  destruct (c =? 38) eqn:E1; [left; bool_to_Z; auto|].
  destruct (c =? 60) eqn:E2; [right; left; bool_to_Z; auto|].
  destruct (c =? 62) eqn:E3; [right; right; left; bool_to_Z; auto|].
  right. right. right. bool_to_Z. auto.
Qed.

Lemma escape_html_no_markup (text : str) (x : Z) :
  x = 60 \/ x = 62 -> ~ In x (V1.escape_html text).
Proof.
  rewrite escape_html_charwise.
  intros Hx Hin. apply in_flat_map in Hin as (c & _ & Hc).
  destruct (escape_char_cases c)
    as [[-> E]|[[-> E]|[[-> E]|(H1 & H2 & H3 & E)]]];
    rewrite E in Hc; cbn in Hc; lia.
Qed.

Lemma escape_html_amp_count (text : str) :
  count_char 38 (V1.escape_html text)
  = (count_char 38 text + count_char 60 text + count_char 62 text)%nat.
Proof.
  rewrite escape_html_charwise.
  unfold count_char. induction text as [|c text IH]; [reflexivity|].
  cbn [flat_map]. rewrite count_occ_app, IH. cbn [count_occ].
  destruct (escape_char_cases c)
    as [[-> E]|[[-> E]|[[-> E]|(H1 & H2 & H3 & E)]]];
    rewrite E; cbn [count_occ];
    repeat match goal with
           | |- context [Z.eq_dec ?a ?b] =>
               destruct (Z.eq_dec a b); try lia
           end.
Qed.

(** X10: the three chained [replace] calls of [escape_html] act as one
    pass over the text, each character being rendered on its own
    ([&] as [&amp;], [<] as [&lt;], [>] as [&gt;], any other as itself):
    the [&] of an entity just written is never escaped again. The
    result holds no [<] and no [>], and exactly one [&] for each [&],
    [<] or [>] of the text. *)
Theorem escape_html_one_pass (text : str) :
  V1.escape_html text = flat_map escape_char text
  /\ ~ In 60 (V1.escape_html text)
  /\ ~ In 62 (V1.escape_html text)
  /\ count_char 38 (V1.escape_html text)
     = (count_char 38 text + count_char 60 text + count_char 62 text)%nat.
Proof.
  split; [apply escape_html_charwise|].
  split; [apply escape_html_no_markup; auto|].
  split; [apply escape_html_no_markup; auto|].
  apply escape_html_amp_count.
Qed.

Lemma unescape_html_other (c : Z) (s : str) :
  c <> 38 -> unescape_html (c :: s) = c :: unescape_html s.
Proof.
  intros Hne.
  destruct c as [|p|p]; try reflexivity.
  repeat (destruct p as [p|p|]; try reflexivity;
          try (exfalso; apply Hne; reflexivity)).
Qed.

(** X11: escaping loses nothing: reading the three entities back gives
    the text again, so two different texts never escape to the same
    one. *)
Theorem escape_html_reversible (text text' : str) :
  unescape_html (V1.escape_html text) = text
  /\ (V1.escape_html text = V1.escape_html text' -> text = text').
Proof.
  assert (Hback : forall s, unescape_html (V1.escape_html s) = s).
  { intros s. rewrite escape_html_charwise.
    induction s as [|c s IH]; [reflexivity|].
    cbn [flat_map].
    destruct (escape_char_cases c)
      as [[-> E]|[[-> E]|[[-> E]|(H1 & H2 & H3 & E)]]]; rewrite E.
    - cbn [app]. cbn [unescape_html]. now rewrite IH.
    - cbn [app]. cbn [unescape_html]. now rewrite IH.
    - cbn [app]. cbn [unescape_html]. now rewrite IH.
    - cbn [app]. rewrite unescape_html_other by exact H1. now rewrite IH. }
  split; [apply Hback|].
  intros H. rewrite <- (Hback text), <- (Hback text'). now rewrite H.
Qed.

Lemma escape_html_reversible_witness :
  unescape_html (V1.escape_html (lit "a<b&c")) = lit "a<b&c".
Proof.
  exact (proj1 (escape_html_reversible (lit "a<b&c") (lit "a<b&c"))).
Defined.

Lemma escape_html_length (text : str) :
  length (V1.escape_html text)
  = (length text + 4 * count_char 38 text + 3 * count_char 60 text
     + 3 * count_char 62 text)%nat.
Proof.
  rewrite escape_html_charwise. unfold count_char.
  induction text as [|c text IH]; [reflexivity|].
  cbn [flat_map]. rewrite length_app, IH. cbn [count_occ length].
  destruct (escape_char_cases c)
    as [[-> E]|[[-> E]|[[-> E]|(H1 & H2 & H3 & E)]]];
    rewrite E; cbn [length];
    repeat match goal with
           | |- context [Z.eq_dec ?a ?b] =>
               destruct (Z.eq_dec a b); try lia
           end.
Qed.

Lemma count_char_zero (c : Z) (s : str) : count_char c s = 0%nat <-> ~ In c s.
Proof. unfold count_char. symmetry. apply count_occ_not_In. Qed.

(** X12: escaping lengthens the text by four characters for each [&]
    and three for each [<] or [>]; it leaves the text as it is exactly
    when the text holds none of the three. So escaping an escaped text
    changes it again as soon as the text held one of them. *)
Theorem escape_html_fixed_points (text : str) :
  length (V1.escape_html text)
  = (length text + 4 * count_char 38 text + 3 * count_char 60 text
     + 3 * count_char 62 text)%nat
  /\ (V1.escape_html text = text <-> plain_text text)
  /\ (V1.escape_html (V1.escape_html text) = V1.escape_html text
      <-> plain_text text).
Proof.
  split; [apply escape_html_length|].
  assert (Hfix : forall s, V1.escape_html s = s <-> plain_text s).
  { intros s. unfold plain_text. rewrite <- !count_char_zero. split.
    - intros H. apply (f_equal (@length Z)) in H.
      rewrite escape_html_length in H. lia.
    - intros (H38 & H60 & H62). rewrite escape_html_charwise.
      rewrite !count_char_zero in *.
      induction s as [|c s IH]; [reflexivity|].
      cbn [flat_map].
      destruct (escape_char_cases c)
        as [[-> E]|[[-> E]|[[-> E]|(H1 & H2 & H3 & E)]]];
        try (exfalso;
             first [apply H38; now left | apply H60; now left
                   | apply H62; now left]).
      rewrite E. cbn [app]. f_equal.
      apply IH; intros Hin;
        first [apply H38; now right | apply H60; now right
              | apply H62; now right]. }
  split; [apply Hfix|].
  rewrite Hfix. unfold plain_text.
  pose proof (escape_html_no_markup text 60 (or_introl eq_refl)) as H60.
  pose proof (escape_html_no_markup text 62 (or_intror eq_refl)) as H62.
  pose proof (escape_html_amp_count text) as H38.
  rewrite <- !count_char_zero in *. rewrite H38. split.
  - intros (Ha & _ & _). repeat split; lia.
  - intros (Ha & Hb & Hc). repeat split; lia.
Qed.

(** ** What the rendered numbers and dates are made of *)

Lemma count_char_app (c : Z) (a b : str) :
  count_char c (a ++ b) = (count_char c a + count_char c b)%nat.
Proof. apply count_occ_app. Qed.

Lemma count_char_cons (c x : Z) (s : str) :
  count_char c (x :: s)
  = ((if Z.eq_dec x c then 1 else 0) + count_char c s)%nat.
Proof.
  unfold count_char. cbn [count_occ]. now destruct (Z.eq_dec x c).
Qed.

Lemma str_of_uint_digits (d : Decimal.uint) :
  Forall (fun c => 48 <= c <= 57) (str_of_uint d).
Proof.
  induction d; cbn [str_of_uint]; constructor; try lia; assumption.
Qed.

(** [str(n)] is made of digits after an optional minus sign. *)
Lemma str_of_int_chars (n : Z) :
  Forall (fun c => c = 45 \/ 48 <= c <= 57) (str_of_int n).
Proof.
  unfold str_of_int. destruct (Z.to_int n) as [d|d].
  - eapply Forall_impl; [|apply str_of_uint_digits]. intros c Hc. now right.
  - constructor; [now left|].
    eapply Forall_impl; [|apply str_of_uint_digits]. intros c Hc. now right.
Qed.

Lemma count_char_absent (c : Z) (s : str) (P : Z -> Prop) :
  Forall P s -> ~ P c -> count_char c s = 0%nat.
Proof.
  intros Hall Hc. apply count_char_zero. intros Hin.
  rewrite Forall_forall in Hall. now apply Hc, Hall.
Qed.

Lemma count_char_str_of_int (c n : Z) :
  c = 60 \/ c = 62 -> count_char c (str_of_int n) = 0%nat.
Proof.
  intros Hc. eapply count_char_absent; [apply str_of_int_chars|].
  cbv beta. lia.
Qed.

Lemma count_char_pad2 (c n : Z) :
  c = 60 \/ c = 62 -> count_char c (pad2 n) = 0%nat.
Proof.
  intros Hc. unfold pad2. destruct (n <? 10).
  - rewrite count_char_cons, count_char_str_of_int by exact Hc.
    destruct (Z.eq_dec 48 c); lia.
  - now apply count_char_str_of_int.
Qed.

Lemma count_char_two_decimals (c n d : Z) :
  c = 60 \/ c = 62 -> count_char c (two_decimals n d) = 0%nat.
Proof.
  intros Hc. unfold two_decimals.
  rewrite !count_char_app, count_char_str_of_int, count_char_pad2
    by exact Hc.
  unfold count_char; cbn [count_occ].
  destruct (Z.eq_dec 46 c); lia.
Qed.

Lemma count_char_minus_sign (c : Z) (negative : bool) :
  c = 60 \/ c = 62 -> count_char c (minus_sign negative) = 0%nat.
Proof.
  intros Hc. destruct negative; unfold minus_sign, count_char;
    cbn [count_occ]; [|reflexivity].
  destruct (Z.eq_dec 45 c); lia.
Qed.

Lemma count_char_format_2f (c : Z) (x : float) :
  c = 60 \/ c = 62 -> count_char c (format_2f x) = 0%nat.
Proof.
  intros Hc. destruct x as [s|s| |s m e]; cbn [format_2f];
    rewrite ?count_char_app, ?count_char_minus_sign by exact Hc.
  - now apply count_char_two_decimals.
  - destruct Hc as [-> | ->]; vm_compute; reflexivity.
  - destruct Hc as [-> | ->]; vm_compute; reflexivity.
  - destruct (0 <=? e); now apply count_char_two_decimals.
Qed.

Lemma count_char_strftime (c : Z) (d : datetime) :
  c = 60 \/ c = 62 -> count_char c (strftime_dmY_HM d) = 0%nat.
Proof.
  intros Hc. unfold strftime_dmY_HM.
  rewrite !count_char_app, count_char_str_of_int, !count_char_pad2
    by exact Hc.
  unfold count_char; cbn [count_occ];
    repeat match goal with
           | |- context [Z.eq_dec ?a ?b] => destruct (Z.eq_dec a b); try lia
           end.
Qed.

Lemma count_char_join_ports (c : Z) (ports : list Z) :
  c = 60 \/ c = 62 ->
  count_char c (join (lit ", ") (map str_of_int ports)) = 0%nat.
Proof.
  intros Hc. induction ports as [|p ports IH]; [reflexivity|].
  destruct ports as [|q ports].
  - cbn [map join]. now apply count_char_str_of_int.
  - change (join (lit ", ") (map str_of_int (p :: q :: ports)))
      with (str_of_int p ++ lit ", "
            ++ join (lit ", ") (map str_of_int (q :: ports))).
    rewrite !count_char_app, IH, count_char_str_of_int by exact Hc.
    destruct Hc as [-> | ->]; reflexivity.
Qed.

Lemma count_char_escape_html (c : Z) (s : str) :
  c = 60 \/ c = 62 -> count_char c (V1.escape_html s) = 0%nat.
Proof.
  intros Hc. apply count_char_zero. now apply escape_html_no_markup.
Qed.

(** ** Markup in the result message *)

Ltac count_literals :=
  repeat match goal with
         | |- context [count_char ?c (lit ?s)] =>
             let v := eval vm_compute in (count_char c (lit s)) in
             change (count_char c (lit s)) with v
         | |- context [count_char ?c nl] =>
             let v := eval vm_compute in (count_char c nl) in
             change (count_char c nl) with v
         end.

Ltac count_pieces Hc :=
  rewrite ?count_char_app;
  rewrite ?count_char_strftime, ?count_char_str_of_int,
    ?count_char_format_2f, ?count_char_escape_html,
    ?count_char_join_ports by exact Hc;
  destruct Hc as [-> | ->]; count_literals.

(** X13: Scanner.py and ScannerV2.py copy the host and the six texts
    of the server record into the HTML message as they are: besides the
    [<] and [>] of its own tags (6 of each, or 18 when a record is
    shown) the message holds every [<] and every [>] of the host, of
    the server name, version, player counts, game mode and MOTD. *)
Theorem format_results_copies_markup (c : Z) (now : datetime) (host : str)
    (active_ports : list Z) (server_info : option ServerInfo)
    (scan_time : float) :
  c = 60 \/ c = 62 ->
  count_char c (format_results now host active_ports server_info scan_time)
  = (template_marks active_ports server_info + count_char c host
     + count_in_fields c active_ports server_info)%nat.
Proof.
  intros Hc. unfold format_results, template_marks, count_in_fields.
  destruct active_ports as [|p ports]; cbn [length Nat.eqb].
  { count_pieces Hc; lia. }
  cbv zeta.
  set (ports_str := join (lit ", ") (map str_of_int (firstn 10 (p :: ports)))).
  assert (Hports : count_char c ports_str = 0%nat)
    by now apply count_char_join_ports.
  destruct server_info as [info|]; cbn [app join];
    destruct (10 <? S (length ports))%nat;
    rewrite ?count_char_app, ?Hports; count_pieces Hc;
    unfold list_sum; cbn [shown_fields map fold_right]; lia.
Qed.

Lemma format_results_copies_markup_witness :
  count_char 60
    (format_results (mkDatetime 2024 7 3 9 5) (lit "mc.example.com")
       [19131]
       (Some {| edition := text "MCPE"; motd := lit "<b>Hi</b>";
                protocol := text "422"; version := text "1.19";
                players := text "3"; max_players := text "10";
                server_id := text "GUID1"; server_name := lit "<i>A";
                gamemode := text "Survival"; port := 19131 |})
       (float_of_dyadic 3 (-1)))
  = 21%nat.
Proof.
  rewrite (format_results_copies_markup 60); [reflexivity | now left].
Defined.

(** X14: scannerV1.py escapes them: whatever the host and the server
    texts hold, its message has exactly the [<] and [>] of its own
    tags. *)
Theorem format_results_v1_markup_is_its_own (c : Z) (now : datetime)
    (host : str) (active_ports : list Z) (server_info : option ServerInfo)
    (scan_time : float) :
  c = 60 \/ c = 62 ->
  count_char c
    (V1.format_results now host active_ports server_info scan_time)
  = template_marks active_ports server_info.
Proof.
  intros Hc. unfold V1.format_results, template_marks.
  destruct active_ports as [|p ports]; cbn [length Nat.eqb].
  { count_pieces Hc; lia. }
  cbv zeta.
  set (ports_str := join (lit ", ") (map str_of_int (firstn 10 (p :: ports)))).
  assert (Hports : count_char c ports_str = 0%nat)
    by now apply count_char_join_ports.
  destruct server_info as [info|]; cbn [app join];
    destruct (10 <? S (length ports))%nat;
    rewrite ?count_char_app, ?Hports; count_pieces Hc; lia.
Qed.

Lemma format_results_v1_markup_is_its_own_witness :
  count_char 60
    (V1.format_results (mkDatetime 2024 7 3 9 5) (lit "mc.example.com")
       [19131]
       (Some {| edition := text "MCPE"; motd := lit "<b>Hi</b>";
                protocol := text "422"; version := text "1.19";
                players := text "3"; max_players := text "10";
                server_id := text "GUID1"; server_name := lit "<i>A";
                gamemode := text "Survival"; port := 19131 |})
       (float_of_dyadic 3 (-1)))
  = 18%nat.
Proof.
  rewrite (format_results_v1_markup_is_its_own 60); [reflexivity | now left].
Defined.

(** ** The handlers *)

Ltac runB :=
  cbv beta iota zeta delta
    [bindB retB raiseB record_call try_except_gaierror socket_getaddrinfo
     reply_text edit_message_text logger_info is_valid_host lift
     V2.check_access machine calls negb fst snd].

Lemma is_valid_host_run (sv : service) (host : str) (b : bot_state) :
  is_valid_host sv host b
  = (mkBot (machine b) (calls b ++ [GetAddrInfo host]),
     match getaddrinfo_error sv host with
     | None => Returned true
     | Some (PythonError gaierror) => Returned false
     | Some e => Raised e
     end).
Proof.
  runB. destruct (getaddrinfo_error sv host) as [[[]| |]|]; reflexivity.
Qed.

Lemma app_cons_app {A} (l : list A) (x : A) (l' : list A) :
  (l ++ [x]) ++ l' = l ++ x :: l'.
Proof. now rewrite <- app_assoc. Qed.

(** X15: a host that does not resolve is never scanned. In the three
    files, when [getaddrinfo] raises [gaierror] for the host, the
    handler looks the host up, answers with the "invalid host" text and
    stops: no socket is opened, nothing is sent to the host. *)
Theorem unresolvable_host_is_refused (sv : service) (update : Update)
    (context : CallbackContext) (b : bot_state) :
  let refused := fun host =>
    (mkBot (machine b)
       (calls b ++ [GetAddrInfo host; ReplyText invalid_host_text PlainText]),
     match reply_outcome sv with
     | Returned _ => Returned tt
     | Raised e => Raised e
     end) in
  (let host := str_strip (message_text update) in
   getaddrinfo_error sv host = Some (PythonError gaierror) ->
   scan_server_handler sv update context b = refused host)
  /\ (let host := str_strip (join (lit " ") (args context)) in
      args context <> [] ->
      getaddrinfo_error sv host = Some (PythonError gaierror) ->
      V1.search sv update context b = refused host
      /\ (effective_chat_id update <> V2.BLOCKED_GROUP_ID ->
          V2.scan_command sv update context b = refused host)).
Proof.
  intros refused. split.
  - intros host Hgai. unfold scan_server_handler, refused. fold host.
    unfold bindB at 1. rewrite is_valid_host_run, Hgai.
    runB. rewrite app_cons_app.
    destruct (reply_outcome sv); reflexivity.
  - intros host Hargs Hgai.
    assert (Hlen : (length (args context) =? 0)%nat = false).
    { destruct (args context); [contradiction | reflexivity]. }
    split.
    + unfold V1.search, refused. rewrite Hlen. fold host.
      unfold bindB at 1. rewrite is_valid_host_run, Hgai.
      runB. rewrite app_cons_app.
      destruct (reply_outcome sv); reflexivity.
    + intros Hchat. apply Z.eqb_neq in Hchat.
      unfold V2.scan_command, refused.
      unfold bindB at 1. unfold V2.check_access. rewrite Hchat.
      unfold retB at 1. cbn [negb]. rewrite Hlen. fold host.
      unfold bindB at 1. rewrite is_valid_host_run, Hgai.
      runB. rewrite app_cons_app.
      destruct (reply_outcome sv); reflexivity.
Qed.

Lemma unresolvable_host_is_refused_witness :
  scan_server_handler nowhere_service sample_update sample_context idle
  = (mkBot boot
       [GetAddrInfo (lit "mc.example.com");
        ReplyText invalid_host_text PlainText],
     Returned tt).
Proof.
  apply (proj1 (unresolvable_host_is_refused nowhere_service sample_update
                  sample_context idle)).
  reflexivity.
Defined.

(** X16: the blocked group gets nothing out of ScannerV2.py: for an
    update from that chat, [/start], [/scan] with or without a host and
    any other message end after one line in the log, without any reply,
    any name lookup or any socket. *)
Theorem blocked_group_gets_no_answer (sv : service) (update : Update)
    (context : CallbackContext) (b : bot_state) :
  effective_chat_id update = V2.BLOCKED_GROUP_ID ->
  exists line,
    let silent :=
      (mkBot (machine b) (calls b ++ [LoggerInfo line]), Returned tt) in
    V2.start sv update context b = silent
    /\ V2.scan_command sv update context b = silent
    /\ V2.ignore_all_messages update context b = silent.
Proof.
  intros Hchat. eexists. cbv zeta.
  unfold V2.start, V2.scan_command, V2.ignore_all_messages.
  unfold bindB, V2.check_access. rewrite Hchat, Z.eqb_refl.
  runB. repeat split; reflexivity.
Qed.

Lemma blocked_group_gets_no_answer_witness :
  exists line,
    V2.scan_command lone_service blocked_update sample_context idle
    = (mkBot boot [LoggerInfo line], Returned tt).
Proof.
  destruct (blocked_group_gets_no_answer lone_service blocked_update
              sample_context idle eq_refl) as (line & _ & H & _).
  exists line. exact H.
Defined.



(** What the handler of Scanner.py does once the host resolved and the
    progress message went out. *)
Lemma scan_server_handler_run (sv : service)
    (update : Update) (context : CallbackContext) (b : bot_state)
    (message : Message) :
  let host := str_strip (message_text update) in
  let scan := scan_server_in PORT_RANGE (scan_env sv) (host_name host) in
  getaddrinfo_error sv host = None ->
  reply_outcome sv = Returned message ->
  let asked := [GetAddrInfo host; ReplyText (progress_text host) PlainText] in
  scan_server_handler sv update context b
  = match outcome scan (machine b) with
    | Ok r =>
        (mkBot (fst (scan (machine b)))
           (calls b ++ asked
            ++ [EditMessageText (chat_id message) (message_id message)
                  (format_results (datetime_now sv) host (sr_active_ports r)
                     (sr_server_info r) (sr_scan_time r))
                  HTML]),
         match edit_error sv with
         | None => Returned tt
         | Some e => Raised e
         end)
    | Raise e =>
        (mkBot (fst (scan (machine b))) (calls b ++ asked),
         Raised (PythonError e))
    end.
Proof.
  intros host scan Hres Hreply asked.
  unfold scan_server_handler. fold host.
  unfold bindB at 1. rewrite is_valid_host_run, Hres. cbn [negb].
  unfold bindB at 1, reply_text. unfold bindB at 1, record_call at 1.
  rewrite Hreply. unfold retB at 1.
  unfold bindB at 1, lift. cbn [machine calls]. fold scan.
  unfold outcome, progress_text.
  destruct (scan (machine b)) as [s' [r|e]]; cbn [fst snd].
  - runB. unfold asked, progress_text. rewrite !app_cons_app.
    destruct (edit_error sv); reflexivity.
  - unfold asked, progress_text. rewrite !app_cons_app. reflexivity.
Qed.

(** X18: once the host resolves and the progress message is delivered,
    [scan_server] runs the scan on the host stripped of surrounding
    blanks; if the scan returns, the one further call edits that very
    progress message (same chat, same message id) to the text of
    [format_results], in HTML mode; if the scan raises, the exception
    leaves the handler and the progress message is never edited. *)
Theorem scan_server_edits_its_progress_message (sv : service)
    (update : Update) (context : CallbackContext) (b : bot_state)
    (message : Message) :
  let host := str_strip (message_text update) in
  let scan := scan_server_in PORT_RANGE (scan_env sv) (host_name host) in
  getaddrinfo_error sv host = None ->
  reply_outcome sv = Returned message ->
  let asked := [GetAddrInfo host; ReplyText (progress_text host) PlainText] in
  scan_server_handler sv update context b
  = match outcome scan (machine b) with
    | Ok r =>
        (mkBot (fst (scan (machine b)))
           (calls b ++ asked
            ++ [EditMessageText (chat_id message) (message_id message)
                  (format_results (datetime_now sv) host (sr_active_ports r)
                     (sr_server_info r) (sr_scan_time r))
                  HTML]),
         match edit_error sv with
         | None => Returned tt
         | Some e => Raised e
         end)
    | Raise e =>
        (mkBot (fst (scan (machine b))) (calls b ++ asked),
         Raised (PythonError e))
    end.
Proof. exact (scan_server_handler_run sv update context b message). Qed.

Lemma scan_server_edits_its_progress_message_witness :
  exists result,
    calls (fst (scan_server_handler lone_service sample_update
                  sample_context idle))
    = [GetAddrInfo (lit "mc.example.com");
       ReplyText (progress_text (lit "mc.example.com")) PlainText;
       EditMessageText 77 1001 result HTML]
    /\ snd (scan_server_handler lone_service sample_update sample_context
              idle) = Returned tt.
Proof.
  pose proof (scan_server_edits_its_progress_message lone_service
                sample_update sample_context idle sample_message
                eq_refl eq_refl) as H.
  cbv zeta in H. rewrite H.
  assert (Hok : exists r,
             outcome
               (scan_server_in PORT_RANGE (scan_env lone_service)
                  (host_name (str_strip (message_text sample_update))))
               (machine idle) = Ok r)
    by (eexists; vm_compute; reflexivity).
  destruct Hok as (r & ->). eexists. split; reflexivity.
Defined.

(** X19: one refused socket costs the user the whole answer. When the
    host resolves and the progress message is delivered but the OS
    refuses a socket to the probe of some port of the range, the
    handler of Scanner.py ends with [UnboundLocalError]: the "please
    wait" message stays as it is, no result and no error text is ever
    sent. *)
Theorem refused_socket_leaves_please_wait (sv : service) (update : Update)
    (context : CallbackContext) (b : bot_state) (message : Message)
    (p : Z) :
  let host := str_strip (message_text update) in
  getaddrinfo_error sv host = None ->
  reply_outcome sv = Returned message ->
  Permutation (completion (scan_env sv)) (ports_of PORT_RANGE) ->
  In p (ports_of PORT_RANGE) ->
  socket_error (probe_net (scan_env sv) p) <> None ->
  calls (fst (scan_server_handler sv update context b))
  = calls b ++ [GetAddrInfo host; ReplyText (progress_text host) PlainText]
  /\ snd (scan_server_handler sv update context b)
     = Raised (PythonError UnboundLocalError).
Proof.
  intros host Hres Hreply Hperm Hin Hdenied.
  rewrite (scan_server_handler_run sv update context b message Hres Hreply).
  unfold outcome. rewrite scan_server_in_run.
  rewrite (filter_mem_permutation _ _ Hperm).
  replace (existsb (fun q => socket_denied (probe_net (scan_env sv) q))
             (completion (scan_env sv))) with true.
  - cbn [fst snd calls]. split; reflexivity.
  - symmetry. apply existsb_exists. exists p. split.
    + eapply Permutation_in; [apply Permutation_sym|]; eauto.
    + unfold socket_denied.
      destruct (socket_error (probe_net (scan_env sv) p));
        [reflexivity | contradiction].
Qed.

Lemma refused_socket_leaves_please_wait_witness :
  calls (fst (scan_server_handler starved_service sample_update
                sample_context idle))
  = [GetAddrInfo (lit "mc.example.com");
     ReplyText (progress_text (lit "mc.example.com")) PlainText]
  /\ snd (scan_server_handler starved_service sample_update sample_context
            idle)
     = Raised (PythonError UnboundLocalError).
Proof.
  apply (refused_socket_leaves_please_wait starved_service sample_update
           sample_context idle sample_message 19500).
  - reflexivity.
  - reflexivity.
  - apply Permutation_refl.
  - apply in_ports_of. cbn. lia.
  - discriminate.
Defined.

(** X20: [is_valid_host] turns [gaierror] alone into "invalid host". Any
    other exception of the lookup (the idna codec refusing a label, for
    one) leaves the handler at once: the user gets no reply at all and
    nothing is scanned. And whenever the handler did touch the network,
    the lookup had succeeded and the progress message had been
    delivered. *)
Theorem lookup_errors_other_than_gaierror_escape (sv : service)
    (update : Update) (context : CallbackContext) (b : bot_state) :
  let host := str_strip (message_text update) in
  (forall e, getaddrinfo_error sv host = Some e ->
             e <> PythonError gaierror ->
             scan_server_handler sv update context b
             = (mkBot (machine b) (calls b ++ [GetAddrInfo host]), Raised e))
  /\ (machine (fst (scan_server_handler sv update context b)) <> machine b ->
      getaddrinfo_error sv host = None
      /\ exists message, reply_outcome sv = Returned message).
Proof.
  intros host.
  assert (Hhead : forall e, getaddrinfo_error sv host = Some e ->
                    e <> PythonError gaierror ->
                    scan_server_handler sv update context b
                    = (mkBot (machine b) (calls b ++ [GetAddrInfo host]),
                       Raised e)).
  { intros e He Hne. unfold scan_server_handler. fold host.
    unfold bindB at 1. rewrite is_valid_host_run, He.
    destruct e as [[]| |]; try reflexivity. contradiction. }
  split; [exact Hhead|].
  intros Hmoved.
  destruct (getaddrinfo_error sv host) as [e|] eqn:Hres.
  - exfalso. apply Hmoved.
    destruct e as [x| |];
      try (rewrite (Hhead _ eq_refl) by discriminate; reflexivity).
    destruct x; try (rewrite (Hhead _ eq_refl) by discriminate; reflexivity).
    unfold scan_server_handler. fold host.
    unfold bindB at 1. rewrite is_valid_host_run, Hres.
    runB. destruct (reply_outcome sv); reflexivity.
  - split; [reflexivity|].
    destruct (reply_outcome sv) as [m|e] eqn:Hreply; [eauto|].
    exfalso. apply Hmoved.
    unfold scan_server_handler. fold host.
    unfold bindB at 1. rewrite is_valid_host_run, Hres. cbn [negb].
    unfold bindB at 1, reply_text. unfold bindB at 1, record_call at 1.
    rewrite Hreply. reflexivity.
Qed.

Lemma lookup_errors_other_than_gaierror_escape_witness :
  scan_server_handler
    (mkService (fun _ => Some UnicodeError) (Returned sample_message) None
       sample_now silent_env)
    sample_update sample_context idle
  = (mkBot boot [GetAddrInfo (lit "mc.example.com")], Raised UnicodeError).
Proof.
  apply (proj1 (lookup_errors_other_than_gaierror_escape
                  (mkService (fun _ => Some UnicodeError)
                     (Returned sample_message) None sample_now silent_env)
                  sample_update sample_context idle) UnicodeError).
  - reflexivity.
  - discriminate.
Defined.

(** ** The three files side by side *)

(** X21: the message of scannerV1.py is the message Scanner.py and
    ScannerV2.py would write for the escaped host and the escaped server
    texts: the two [format_results] differ by the calls of
    [escape_html] and by nothing else. *)
Theorem format_results_v1_is_escaped_format_results (now : datetime)
    (host : str) (active_ports : list Z) (server_info : option ServerInfo)
    (scan_time : float) :
  V1.format_results now host active_ports server_info scan_time
  = format_results now (V1.escape_html host) active_ports
      (option_map escape_shown server_info) scan_time.
Proof.
  unfold V1.format_results, format_results.
  destruct (length active_ports =? 0)%nat; [reflexivity|].
  destruct server_info as [info|]; reflexivity.
Qed.

(** ** An open port without a status *)

(** X22: the probe looks at the first byte only, the status request
    wants nine [;] as well: a server that answers both with a datagram
    starting with [0x1C] but holding fewer than nine [;] from offset 33
    on is reported open by [check_bedrock_port] while [get_server_info]
    returns [None] for it. *)
Theorem open_port_without_status (w : world) (host : string) (p : Z)
    (s s' : state) (payload : bytes) :
  socket_error w = None ->
  sendto_error w = None ->
  clock_fits w = true ->
  incoming w = Datagram payload ->
  starts_with_pong payload = true ->
  (count_occ Byte.byte_eq_dec (skipn 33 (firstn 2048 payload)) SEMICOLON
   < 9)%nat ->
  outcome (check_bedrock_port w host p) s = Ok (p, true)
  /\ outcome (get_server_info w host p) s' = Ok None.
Proof.
  intros Hs Hsend Hfit Hin Hpong Hfew.
  assert (Hrecv : forall n, received w n = Some (firstn n payload)).
  { intros n. unfold received. now rewrite Hs, Hsend, Hin, Hfit. }
  assert (Hfirst : forall n, starts_with_pong (firstn (S n) payload) = true).
  { intros n. destruct payload; [discriminate | exact Hpong]. }
  split.
  - rewrite check_bedrock_port_with_socket by exact Hs.
    unfold pong_received. rewrite Hrecv.
    change 1024%nat with (S 1023). now rewrite Hfirst.
  - rewrite get_server_info_with_socket, Hrecv by exact Hs.
    unfold parse_status.
    change 2048%nat with (S 2047) at 1. rewrite Hfirst.
    pose proof (split_length SEMICOLON (skipn 33 (firstn 2048 payload)))
      as Hlen.
    destruct (split SEMICOLON (skipn 33 (firstn 2048 payload)))
      as [|f0 [|f1 [|f2 [|f3 [|f4 [|f5 [|f6 [|f7 [|f8 [|f9 rest]]]]]]]]]];
      try reflexivity.
    cbn [length] in Hlen. lia.
Qed.

Lemma open_port_without_status_witness :
  outcome (check_bedrock_port bare_pong_world "play.example.net" 19131) boot
  = Ok (19131, true)
  /\ outcome (get_server_info bare_pong_world "play.example.net" 19131) boot
     = Ok None.
Proof.
  apply (open_port_without_status bare_pong_world "play.example.net" 19131
           boot boot [x1c]); try reflexivity.
  vm_compute. repeat constructor.
Defined.
